(** * Message board agent: storage, access gate, channels and hash-chain batcher

    Shallow embedding of the message-board agent (the revision built on a
    per-domain storage backend and the DomainAgent ACL contract).  JavaScript
    objects become records, awaited external calls (storage, ACL oracle,
    IPFS) become explicit function arguments, and the per-domain mutable
    state is threaded explicitly. *)

From Stdlib Require Import String Ascii List Arith Lia Bool.
From Stdlib Require Import ZArith QArith.
Open Scope nat_scope.
Import ListNotations.

(** ** Data model *)

Record Comment := mkComment {
  c_id : nat;
  c_text : string;
  c_author : string;
  c_authorName : option string;
  c_timestamp : nat
}.

(** [post] objects as built by the POST /api/posts handler. *)
Record Post := mkPost {
  id : nat;
  text : string;
  image : option string;
  author : string;
  authorName : option string;
  timestamp : nat;
  comments : list Comment;
  channel : option string
}.

(** ** Hash chain (addPostToBatch / flushBatch)

    SHA-256 is modelled collision-free: a digest is the symbolic term of
    what was hashed.  [Genesis] is the constant
    ['0000...0000'] of the constructor, [HashPost p prev] is
    [hashPost(post, previousHash)] (sha256 of the JSON of the post with the
    previous hash), [Rehash h] is [sha256(lastHash)] computed by
    [flushBatch]. *)
Inductive Hash :=
| Genesis
| HashPost (p : Post) (prev : Hash)
| Rehash (h : Hash).

Definition hashPost (post : Post) (previousHash : Hash) : Hash :=
  HashPost post previousHash.

(** Result of [uploadToIPFS]: [{hash, url}] or [null]. *)
Record IpfsRef := mkIpfsRef { ipfs_hash : string; ipfs_url : string }.

(** [chainedPost]: the post with its chain fields. *)
Record ChainedPost := mkChainedPost {
  cp_post : Post;
  hash : Hash;
  previousHash : Hash;
  chainIndex : nat;
  userSignature : option string;
  ipfs : option IpfsRef
}.

(** The [dataWallet] uploaded for each link (its chain block). *)
Record DataWallet := mkDataWallet {
  dw_post : Post;
  dw_hash : Hash;
  dw_previousHash : Hash;
  dw_index : nat
}.

Record SummaryEntry := mkSummaryEntry {
  se_id : nat;
  se_hash : Hash;
  se_ipfsHash : option string;
  se_author : string;
  se_timestamp : nat
}.

Record BatchSummary := mkBatchSummary {
  bs_posts : list SummaryEntry;
  chainRoot : Hash;
  count : nat;
  bs_timestamp : nat
}.

(** What [uploadToIPFS] is called with. *)
Inductive Payload :=
| PWallet (w : DataWallet)
| PSummary (s : BatchSummary).

(** The content store: [uploadToIPFS] never throws, it answers [null]
    ([None]) on any failure. *)
Definition Upload := Payload -> option IpfsRef.

(** Per-domain state of [getDomainState]. *)
Record DomainState := mkDomainState {
  postChain : list ChainedPost;
  lastHash : Hash
}.

(** State of a domain with no persisted batch file. *)
Definition initDomainState : DomainState := mkDomainState [] Genesis.

Definition summaryEntry (p : ChainedPost) : SummaryEntry :=
  mkSummaryEntry (id (cp_post p)) (hash p) (option_map ipfs_hash (ipfs p))
    (author (cp_post p)) (timestamp (cp_post p)).

(** [flushBatch(domain)], run without another task of the domain
    resuming at its [await uploadToIPFS(batchSummary)]; see [BatchTask]
    for the interleaved runs. *)
Definition flushBatch (upload : Upload) (now : nat) (state : DomainState)
  : DomainState :=
  match postChain state with
  | [] => state
  | _ =>
    let batchSummary :=
      mkBatchSummary (map summaryEntry (postChain state)) (lastHash state)
        (length (postChain state)) now in
    match upload (PSummary batchSummary) with
    | Some _ =>
      (* batch summary uploaded; blockchain write still a TODO *)
      mkDomainState [] (Rehash (lastHash state))
    | None =>
      mkDomainState [] (Rehash (lastHash state))
    end
  end.

(** [addPostToBatch(post, userSignature, domain)]: returns the new state and
    the chained post.  This is the run with no other task of the domain
    resuming at its awaits ([signPostAsServer], [uploadToIPFS], the
    flush's upload); [BatchTask] models the interleaved runs. *)
Definition addPostToBatch (upload : Upload) (batchThreshold now : nat)
  (post : Post) (userSig : option string) (state : DomainState)
  : DomainState * ChainedPost :=
  let h := hashPost post (lastHash state) in
  let idx := length (postChain state) in
  let ipfsResult :=
    upload (PWallet (mkDataWallet post h (lastHash state) idx)) in
  let chainedPost := mkChainedPost post h (lastHash state) idx userSig ipfsResult in
  let state1 := mkDomainState (postChain state ++ [chainedPost]) h in
  if batchThreshold <=? length (postChain state1)
  then (flushBatch upload now state1, chainedPost)
  else (state1, chainedPost).

(** Operations run one after another on a domain's batch state: an append
    (from the POST handler) or a flush (from [cleanup]). *)
Inductive BatchOp :=
| Append (post : Post) (userSig : option string) (now : nat)
| Flush (now : nat).

Definition runBatchOp (upload : Upload) (batchThreshold : nat)
  (state : DomainState) (op : BatchOp) : DomainState :=
  match op with
  | Append p s now => fst (addPostToBatch upload batchThreshold now p s state)
  | Flush now => flushBatch upload now state
  end.

Definition runBatchOps (upload : Upload) (batchThreshold : nat)
  (state : DomainState) (ops : list BatchOp) : DomainState :=
  fold_left (runBatchOp upload batchThreshold) ops state.

(** Chain shape: each link's [previousHash] is the hash before it, starting
    from [root]. *)
Fixpoint linked (root : Hash) (c : list ChainedPost) : Prop :=
  match c with
  | [] => True
  | cp :: rest =>
    previousHash cp = root /\ hash cp = hashPost (cp_post cp) root /\
    linked (hash cp) rest
  end.

Fixpoint chainEnd (root : Hash) (c : list ChainedPost) : Hash :=
  match c with
  | [] => root
  | cp :: rest => chainEnd (hash cp) rest
  end.

Definition chainFrom (root : Hash) (state : DomainState) : Prop :=
  linked root (postChain state) /\ lastHash state = chainEnd root (postChain state).

(** ** Tenant storage backend (readData / migrateLegacyData / writeData) *)

(** Index entry written by [writeData] and [migrateLegacyData]. *)
Record Meta := mkMeta {
  m_id : nat;
  m_timestamp : nat;
  m_author : string;
  m_channel : option string
}.

(** Parsed [posts/index.json]. *)
Record Index := mkIndex { nextId : nat; idx_posts : list Meta }.

(** Content of [posts/index.json] when the file can be read. *)
Inductive IndexFile :=
| IndexOk (i : Index)
| IndexUnparsable.

(** The legacy monolith [message-board-posts.json]. *)
Record Legacy := mkLegacy { l_posts : list Post; l_nextId : nat }.

Inductive LegacyFile :=
| NoLegacy                 (* ENOENT / not found *)
| LegacyOk (l : Legacy)
| LegacyUnparsable.        (* JSON.parse throws, rethrown *)

(** A domain's storage: the index file (or none), the record files
    [posts/<id>.json] as an association list (first binding wins), and the
    legacy file read through [Config]. *)
Record Storage := mkStorage {
  indexFile : option IndexFile;
  records : list (nat * Post);
  legacy : LegacyFile
}.

(** The [data] object: [{posts, nextId}]. *)
Record Data := mkData { d_posts : list Post; d_nextId : nat }.

Definition emptyStorage : Storage := mkStorage None [] NoLegacy.

Definition readRecord (rs : list (nat * Post)) (k : nat) : option Post :=
  match find (fun kv => Nat.eqb (fst kv) k) rs with
  | Some (_, p) => Some p
  | None => None
  end.

(** [storage.writeFile('posts/<id>.json', post)] overwrites the record. *)
Definition writeRecord (rs : list (nat * Post)) (p : Post) : list (nat * Post) :=
  (id p, p) :: filter (fun kv => negb (Nat.eqb (fst kv) (id p))) rs.

Definition writePost (st : Storage) (p : Post) : Storage :=
  mkStorage (indexFile st) (writeRecord (records st) p) (legacy st).

Definition metaOf (p : Post) : Meta :=
  mkMeta (id p) (timestamp p) (author p) (channel p).

(** Posts whose record loads, in index order (a failed load is [null] and
    filtered out). *)
Fixpoint loadPosts (rs : list (nat * Post)) (ms : list Meta) : list Post :=
  match ms with
  | [] => []
  | m :: ms' =>
    match readRecord rs (m_id m) with
    | Some p => p :: loadPosts rs ms'
    | None => loadPosts rs ms'
    end
  end.

Definition maxId (ps : list Post) : nat := fold_right (fun p acc => Nat.max (id p) acc) 0 ps.

(** [migrateLegacyData]: [None] when it throws. *)
Definition migrateLegacyData (st : Storage) : option (Data * Storage) :=
  match legacy st with
  | NoLegacy => Some (mkData [] 1, st)
  | LegacyUnparsable => None
  | LegacyOk l =>
    let rs := fold_left writeRecord (l_posts l) (records st) in
    let index := mkIndex (l_nextId l) (map metaOf (l_posts l)) in
    Some (mkData (l_posts l) (l_nextId l), mkStorage (Some (IndexOk index)) rs (legacy st))
  end.

(** [readData]: any failure to read or parse the index (including a
    missing file) falls into the [catch], which migrates. *)
Definition readData (st : Storage) : option (Data * Storage) :=
  match indexFile st with
  | Some (IndexOk index) =>
    let posts := loadPosts (records st) (idx_posts index) in
    Some (mkData posts
            (if Nat.eqb (nextId index) 0 then maxId posts + 1 else nextId index), st)
  | _ => migrateLegacyData st
  end.

(** [writeData]: rebuilds the index from [data]. *)
Definition writeData (st : Storage) (data : Data) : Storage :=
  mkStorage (Some (IndexOk (mkIndex (d_nextId data) (map metaOf (d_posts data)))))
    (records st) (legacy st).

(** ** Access resolver (checkPostingPermission / checkAdminPermission) *)

(** The domain ACL oracle.  [None] means the awaited call threw. *)
Record Acl := mkAcl {
  checkAgentAccess : string -> option nat;      (* address -> access.level *)
  isInACL : string -> string -> option bool;    (* list name, address *)
  getUserName : string -> option string         (* errors already mapped to null *)
}.

Inductive Permission :=
| Allowed (address : string) (name : option string)
| Denied (reason : string).

Definition checkPostingPermission (acl : Acl) (client : option string) : Permission :=
  match client with
  | None => Denied "Authentication required"
  | Some address =>
    match checkAgentAccess acl address with
    | None => Denied "Permission check failed"
    | Some level =>
      if 2 <=? level then Allowed address (getUserName acl address)
      else Denied "You need editor privileges to post. Request access in the sidebar."
    end
  end.

Definition checkAdminPermission (acl : Acl) (client : option string) : Permission :=
  match client with
  | None => Denied "Authentication required"
  | Some address =>
    match checkAgentAccess acl address with
    | None => Denied "Permission check failed"
    | Some level =>
      if 3 <=? level then Allowed address None else Denied "Admin permission required"
    end
  end.

(** ** Board configuration and channels *)

Record Channel := mkChannel { ch_name : string; ch_list : option string }.

(** [imageSettings]; [maxProcessedBytes] is [maxProcessedSize * 1024 * 1024]. *)
Record ImageSettings := mkImageSettings { maxProcessedBytes : nat; allowSvg : bool }.

Record BoardConfig := mkBoardConfig {
  channels : list Channel;
  imageSettings : ImageSettings
}.

(** HTTP outcome: the value sent with 200, or the error status. *)
Inductive Err :=
| ValidationError   (* 400 *)
| PermissionError   (* 401 / 403 *)
| NotFoundError     (* 404 *)
| ServerError.      (* 500 *)

Inductive Resp (A : Type) :=
| Ok (a : A)
| Fail (e : Err).
Arguments Ok {A} a.
Arguments Fail {A} e.

(** JavaScript truthiness of an optional string: [""] is falsy. *)
Definition truthy (s : option string) : option string :=
  match s with
  | Some c => if String.eqb c "" then None else Some c
  | None => None
  end.

Definition is_ws (c : ascii) : bool :=
  match nat_of_ascii c with
  | 9 | 10 | 11 | 12 | 13 | 32 => true
  | _ => false
  end.

Fixpoint dropWs (l : list ascii) : list ascii :=
  match l with
  | c :: l' => if is_ws c then dropWs l' else l
  | [] => []
  end.

(** [String.prototype.trim] on ASCII text. *)
Definition trim (s : string) : string :=
  string_of_list_ascii (rev (dropWs (rev (dropWs (list_ascii_of_string s))))).

Definition isBlank (s : string) : bool := Nat.eqb (String.length (trim s)) 0.

Definition channelCharOk (c : ascii) : bool :=
  let n := nat_of_ascii c in
  ((97 <=? n) && (n <=? 122)) || ((48 <=? n) && (n <=? 57)) || Nat.eqb n 45.

(** [/^[a-z0-9-]+$/.test(name)]. *)
Definition validChannelName (name : string) : bool :=
  negb (String.eqb name "") && forallb channelCharOk (list_ascii_of_string name).

Definition channelExists (chs : list Channel) (name : string) : bool :=
  existsb (fun c => String.eqb (ch_name c) name) chs.

(** ** Route handlers *)

(** Body and caller of POST /api/posts ([req.episteryClient.address],
    [text], [image], [channel]) and the handler's [Date.now()]. *)
Record PostReq := mkPostReq {
  client : option string;
  req_text : string;
  req_image : option string;
  req_channel : option string;
  req_now : nat
}.

Section Handlers.

(** [sanitizeSvg(dataUrl)]: the sanitized data URL, or [None] when it
    throws.  Its regex rewriting is irrelevant to the properties below, so
    the handlers are stated for every sanitizer. *)
Variable sanitizeSvg : string -> option string.

(** Image checks of POST /api/posts; [None] when the image is accepted. *)
Definition validateImage (settings : ImageSettings) (image : string) : option Err :=
  if negb (String.prefix "data:image/" image) then Some ValidationError
  else if maxProcessedBytes settings <? (3 * String.length image + 2) / 4
  then Some ValidationError
  else
    let isJpeg := String.prefix "data:image/jpeg" image in
    let isSvg := String.prefix "data:image/svg+xml" image in
    if negb isJpeg && negb isSvg then Some ValidationError
    else if isSvg && negb (allowSvg settings) then Some ValidationError
    else if isSvg then
      match sanitizeSvg image with
      | Some _ => None   (* stored in req.body.image, not in [image] *)
      | None => Some ValidationError
      end
    else None.

(** Steps before the permission check: text, channel, image. *)
Definition validatePost (cfg : BoardConfig) (req : PostReq) : option Err :=
  if isBlank (req_text req) then Some ValidationError
  else
    let channelOk :=
      match truthy (req_channel req) with
      | Some c => String.eqb c "general" || channelExists (channels cfg) c
      | None => true
      end in
    if negb channelOk then Some ValidationError
    else
      match truthy (req_image req) with
      | Some img => validateImage (imageSettings cfg) img
      | None => None
      end.

(** [id: data.nextId++], then [data.posts.unshift(post)]. *)
Definition buildPost (req : PostReq) (address : string) (name : option string)
  (data : Data) : Post * Data :=
  let post := mkPost (d_nextId data) (trim (req_text req)) (truthy (req_image req))
                address name (req_now req) [] (truthy (req_channel req)) in
  (post, mkData (post :: d_posts data) (S (d_nextId data))).

(** POST /api/posts, run without interruption. *)
Definition submitPost (cfg : BoardConfig) (acl : Acl) (req : PostReq) (st : Storage)
  : Resp Post * Storage :=
  match validatePost cfg req with
  | Some e => (Fail e, st)
  | None =>
    match checkPostingPermission acl (client req) with
    | Denied _ => (Fail PermissionError, st)
    | Allowed address name =>
      match readData st with
      | None => (Fail ServerError, st)
      | Some (data, st1) =>
        let (post, data') := buildPost req address name data in
        let st2 := writePost st1 post in
        let st3 := writeData st2 data' in
        (Ok post, st3)
      end
    end
  end.

(** The handler as an async task: it is suspended at [await readData],
    [await writePost] and [await writeData], where other requests of the
    same domain may run. *)
Inductive Handler :=
| HStart (req : PostReq)
| HRead (req : PostReq) (address : string) (name : option string) (data : Data)
| HWrote (post : Post) (data : Data)
| HDone (r : Resp Post).

Definition stepHandler (cfg : BoardConfig) (acl : Acl) (st : Storage) (h : Handler)
  : Handler * Storage :=
  match h with
  | HStart req =>
    match validatePost cfg req with
    | Some e => (HDone (Fail e), st)
    | None =>
      match checkPostingPermission acl (client req) with
      | Denied _ => (HDone (Fail PermissionError), st)
      | Allowed address name =>
        match readData st with
        | None => (HDone (Fail ServerError), st)
        | Some (data, st1) => (HRead req address name data, st1)
        end
      end
    end
  | HRead req address name data =>
    let (post, data') := buildPost req address name data in
    (HWrote post data', writePost st post)
  | HWrote post data' => (HDone (Ok post), writeData st data')
  | HDone r => (HDone r, st)
  end.

Fixpoint setNth {A} (l : list A) (i : nat) (x : A) : list A :=
  match l, i with
  | [], _ => []
  | _ :: l', 0 => x :: l'
  | y :: l', S i' => y :: setNth l' i' x
  end.

(** The event loop: [sched] lists which pending request resumes next. *)
Fixpoint runSchedule (cfg : BoardConfig) (acl : Acl) (sched : list nat)
  (hs : list Handler) (st : Storage) : list Handler * Storage :=
  match sched with
  | [] => (hs, st)
  | i :: sched' =>
    match nth_error hs i with
    | None => runSchedule cfg acl sched' hs st
    | Some h =>
      let (h', st') := stepHandler cfg acl st h in
      runSchedule cfg acl sched' (setNth hs i h') st'
    end
  end.


(** The request followed by its background [addPostToBatch] task
    ([setImmediate]); the response is the one of [submitPost]. *)
Definition submitPostAndBatch (cfg : BoardConfig) (acl : Acl) (upload : Upload)
  (batchThreshold : nat) (req : PostReq) (st : Storage) (ds : DomainState)
  : Resp Post * Storage * DomainState :=
  match submitPost cfg acl req st with
  | (Ok post, st') =>
    (Ok post, st', fst (addPostToBatch upload batchThreshold (req_now req) post None ds))
  | (Fail e, st') => (Fail e, st', ds)
  end.

End Handlers.

(** POST /api/posts/:id/comments. *)
Definition submitComment (acl : Acl) (client : option string) (postId : nat)
  (txt : string) (now : nat) (st : Storage) : Resp Comment * Storage :=
  if isBlank txt then (Fail ValidationError, st)
  else
    match checkPostingPermission acl client with
    | Denied _ => (Fail PermissionError, st)
    | Allowed address name =>
      match readData st with
      | None => (Fail ServerError, st)
      | Some (data, st1) =>
        match find (fun p => Nat.eqb (id p) postId) (d_posts data) with
        | None => (Fail NotFoundError, st1)
        | Some post =>
          let comment := mkComment now (trim txt) address name now in
          (* [post.comments.push(comment)] mutates the object held in [data] *)
          let post' := mkPost (id post) (text post) (image post) (author post)
                         (authorName post) (timestamp post)
                         (comments post ++ [comment]) (channel post) in
          let data' := mkData (map (fun p => if Nat.eqb (id p) postId then post' else p)
                                 (d_posts data)) (d_nextId data) in
          (Ok comment, writeData (writePost st1 post') data')
        end
      end
    end.

Fixpoint addAccessible (acl : Acl) (address : string) (level : nat)
  (chs : list Channel) (acc : list string) : option (list string) :=
  match chs with
  | [] => Some acc
  | ch :: chs' =>
    match truthy (ch_list ch) with
    | None =>
      addAccessible acl address level chs'
        (if 1 <=? level then acc ++ [ch_name ch] else acc)
    | Some l =>
      match isInACL acl l address with
      | None => None
      | Some b => addAccessible acl address level chs' (if b then acc ++ [ch_name ch] else acc)
      end
    end
  end.

(** [getAccessibleChannelNames(req)]; [None] when an awaited ACL call
    throws (there is no [try] in this function). *)
Definition getAccessibleChannelNames (cfg : BoardConfig) (acl : Acl)
  (client : option string) : option (list string) :=
  match client with
  | Some address =>
    match checkAgentAccess acl address with
    | None => None
    | Some level =>
      if 3 <=? level then Some ("general"%string :: map ch_name (channels cfg))
      else addAccessible acl address level (channels cfg) ["general"%string]
    end
  | None =>
    Some ("general"%string :: map ch_name (filter (fun ch => match truthy (ch_list ch) with
                                                      | None => true
                                                      | Some _ => false end)
                                       (channels cfg)))
  end.

Definition memStr (s : string) (l : list string) : bool := existsb (String.eqb s) l.

Definition postChannel (p : Post) : string :=
  match truthy (channel p) with Some c => c | None => "general" end.

(** GET /api/posts[?channel=...]. *)
Definition listPosts (cfg : BoardConfig) (acl : Acl) (client : option string)
  (qchannel : option string) (st : Storage) : Resp (list Post) * Storage :=
  match readData st with
  | None => (Fail ServerError, st)
  | Some (data, st1) =>
    match getAccessibleChannelNames cfg acl client with
    | None => (Fail ServerError, st1)
    | Some accessible =>
      let posts := filter (fun p => memStr (postChannel p) accessible) (d_posts data) in
      match truthy qchannel with
      | None => (Ok posts, st1)
      | Some c =>
        if negb (memStr c accessible) then (Fail PermissionError, st1)
        else if String.eqb c "general"
        then (Ok (filter (fun p => match truthy (channel p) with
                                   | None => true
                                   | Some c' => String.eqb c' "general" end) posts), st1)
        else (Ok (filter (fun p => match channel p with
                                   | Some c' => String.eqb c' c
                                   | None => false end) posts), st1)
      end
    end
  end.

(** POST /api/channels. *)
Definition createChannel (acl : Acl) (client : option string) (name : string)
  (listName : option string) (chs : list Channel) : Resp Channel * list Channel :=
  match checkAdminPermission acl client with
  | Denied _ => (Fail PermissionError, chs)
  | Allowed _ _ =>
    if negb (validChannelName name) then (Fail ValidationError, chs)
    else if String.eqb name "general" then (Fail ValidationError, chs)
    else if channelExists chs name then (Fail ValidationError, chs)
    else let ch := mkChannel name (truthy listName) in (Ok ch, chs ++ [ch])
  end.

(** ** Sample inputs *)

Definition samplePost (n : nat) : Post :=
  mkPost n "hello" None "0xa11ce" None 1000 [] None.

(** The content store is down: every [uploadToIPFS] answers [null]. *)
Definition noUpload : Upload := fun _ => None.

Definition isAppend (op : BatchOp) : bool :=
  match op with Append _ _ _ => true | Flush _ => false end.

(** A board with one access-listed channel. *)
Definition sampleCfg : BoardConfig :=
  mkBoardConfig [mkChannel "staff" (Some "staff-list"%string)] (mkImageSettings 4096 true).

(** ACL oracles answering a fixed level for every address; [downAcl]
    throws on every call. *)
Definition levelAcl (level : nat) : Acl :=
  mkAcl (fun _ => Some level) (fun _ _ => Some false) (fun _ => None).

Definition downAcl : Acl := mkAcl (fun _ => None) (fun _ _ => None) (fun _ => None).

Definition sampleReq (t : string) : PostReq := mkPostReq (Some "0xa11ce"%string) t None None 1000.

(** The sanitizer of the samples (no SVG is sent). *)
Definition keepSvg (s : string) : option string := Some s.

(** A chain of one link. *)
Definition oneLinkState : DomainState :=
  fst (addPostToBatch noUpload 5 0 (samplePost 1) None initDomainState).

(** The post and storage after [sampleReq "p1"] on an empty domain. *)
Definition samplePost1 : Post := mkPost 1 "p1" None "0xa11ce" None 1000 [] None.

Definition sampleStorage1 : Storage :=
  writeData (writePost emptyStorage samplePost1) (mkData [samplePost1] 2).

(** A domain whose legacy monolith holds post 1 (next id 2), migrated
    earlier, that has since stored post 2, and whose index file can no
    longer be parsed. *)
Definition newerPost : Post := mkPost 2 "later" None "0xb0b" None 2000 [] None.

Definition corruptIndexStorage : Storage :=
  mkStorage (Some IndexUnparsable) [(2, newerPost); (1, samplePost 1)]
    (LegacyOk (mkLegacy [samplePost 1] 2)).

(** Id carried by a response, if any. *)
Definition respId (r : Resp Post) : option nat :=
  match r with Ok p => Some (id p) | Fail _ => None end.



(** ** Newest-first order *)

(** Ids strictly decreasing along the list. *)
Fixpoint descIds (ps : list Post) : Prop :=
  match ps with
  | [] => True
  | p :: ps' => Forall (fun q => id q < id p) ps' /\ descIds ps'
  end.

Fixpoint descMeta (ms : list Meta) : Prop :=
  match ms with
  | [] => True
  | m :: ms' => Forall (fun m' => m_id m' < m_id m) ms' /\ descMeta ms'
  end.

Definition dataOk (d : Data) : Prop :=
  descIds (d_posts d) /\ Forall (fun p => id p < d_nextId d) (d_posts d).

Definition recordsOk (rs : list (nat * Post)) : Prop :=
  forall k p, readRecord rs k = Some p -> id p = k.

Definition indexOk (f : option IndexFile) : Prop :=
  match f with
  | Some (IndexOk index) =>
    descMeta (idx_posts index) /\
    (nextId index = 0 \/ Forall (fun m => m_id m < nextId index) (idx_posts index))
  | _ => True
  end.

Definition legacyOk (l : LegacyFile) : Prop :=
  match l with
  | LegacyOk l => dataOk (mkData (l_posts l) (l_nextId l))
  | _ => True
  end.

Definition storageOk (st : Storage) : Prop :=
  recordsOk (records st) /\ indexOk (indexFile st) /\ legacyOk (legacy st).

Definition handlerOk (h : Handler) : Prop :=
  match h with
  | HRead _ _ _ d => dataOk d
  | HWrote _ d => dataOk d
  | _ => True
  end.

(** ** Further routes and agent methods *)

(** [String.prototype.toLowerCase] on ASCII text. *)
Definition lowerAscii (c : ascii) : ascii :=
  let n := nat_of_ascii c in
  if (65 <=? n) && (n <=? 90) then ascii_of_nat (n + 32) else c.

Fixpoint toLowerCase (s : string) : string :=
  match s with
  | EmptyString => EmptyString
  | String c s' => String (lowerAscii c) (toLowerCase s')
  end.

(** [permission.allowed]. *)
Definition isAllowed (p : Permission) : bool :=
  match p with Allowed _ _ => true | Denied _ => false end.

(** [arr.findIndex(f)]: [None] for [-1]. *)
Fixpoint findIndex {A} (f : A -> bool) (l : list A) : option nat :=
  match l with
  | [] => None
  | x :: l' => if f x then Some 0 else option_map S (findIndex f l')
  end.

(** [arr.splice(i, 1)] for [i >= 0] (nothing is removed past the end). *)
Fixpoint removeNth {A} (i : nat) (l : list A) : list A :=
  match l, i with
  | [], _ => []
  | _ :: l', 0 => l'
  | x :: l', S i' => x :: removeNth i' l'
  end.

(** [deletePost(domain, postId)]: [storage.deleteFile('posts/<id>.json')]. *)
Definition deleteRecord (rs : list (nat * Post)) (k : nat) : list (nat * Post) :=
  filter (fun kv => negb (Nat.eqb (fst kv) k)) rs.

Definition deletePost (st : Storage) (postId : nat) : Storage :=
  mkStorage (indexFile st) (deleteRecord (records st) postId) (legacy st).

(** DELETE /api/posts/:id.  [postId] is [parseInt(req.params.id)]; a [NaN]
    or negative value matches no post, as an absent id does. *)
Definition deletePostHandler (acl : Acl) (client : option string) (postId : nat)
  (st : Storage) : Resp unit * Storage :=
  match client with
  | None => (Fail PermissionError, st)
  | Some userAddress =>
    match readData st with
    | None => (Fail ServerError, st)
    | Some (data, st1) =>
      match find (fun p => Nat.eqb (id p) postId) (d_posts data) with
      | None => (Fail NotFoundError, st1)
      | Some post =>
        let isAuthor := String.eqb (toLowerCase (author post)) (toLowerCase userAddress) in
        let canDelete := isAuthor || isAllowed (checkAdminPermission acl client) in
        if negb canDelete then (Fail PermissionError, st1)
        else
          let st2 := deletePost st1 postId in
          match findIndex (fun p => Nat.eqb (id p) postId) (d_posts data) with
          | Some index =>
            (Ok tt, writeData st2 (mkData (removeNth index (d_posts data)) (d_nextId data)))
          | None => (Ok tt, writeData st2 data)   (* unreachable: [find] succeeded *)
          end
      end
    end
  end.

(** The post with [c] pushed onto its comments. *)
Definition addComment (p : Post) (c : Comment) : Post :=
  mkPost (id p) (text p) (image p) (author p) (authorName p) (timestamp p)
    (comments p ++ [c]) (channel p).

(** DELETE /api/channels/:name (the channel list is always present in this
    model; a missing list answers 404 as an empty one does). *)
Definition deleteChannel (acl : Acl) (client : option string) (name : string)
  (chs : list Channel) : Resp unit * list Channel :=
  if negb (isAllowed (checkAdminPermission acl client)) then (Fail PermissionError, chs)
  else
    match findIndex (fun c => String.eqb (ch_name c) name) chs with
    | None => (Fail NotFoundError, chs)
    | Some index => (Ok tt, removeNth index chs)
    end.

(** The pseudo-channel [{name: 'general', list: null, isPseudo: true}]
    heading the answer of GET /api/channels. *)
Definition generalPseudo : Channel := mkChannel "general" None.

Fixpoint accessibleChannels (acl : Acl) (address : string) (level : nat)
  (chs : list Channel) (acc : list Channel) : option (list Channel) :=
  match chs with
  | [] => Some acc
  | ch :: chs' =>
    match truthy (ch_list ch) with
    | None =>
      accessibleChannels acl address level chs' (if 1 <=? level then acc ++ [ch] else acc)
    | Some l =>
      match isInACL acl l address with
      | None => None
      | Some b => accessibleChannels acl address level chs' (if b then acc ++ [ch] else acc)
      end
    end
  end.

(** GET /api/channels; a throwing ACL call is caught and answers 500. *)
Definition listChannels (acl : Acl) (client : option string) (chs : list Channel)
  : Resp (list Channel) :=
  match client with
  | Some address =>
    match checkAgentAccess acl address with
    | None => Fail ServerError
    | Some level =>
      if 3 <=? level then Ok (generalPseudo :: chs)
      else
        match accessibleChannels acl address level chs [generalPseudo] with
        | None => Fail ServerError
        | Some l => Ok l
        end
    end
  | None =>
    Ok (generalPseudo :: filter (fun ch => match truthy (ch_list ch) with
                                           | None => true
                                           | Some _ => false end) chs)
  end.

(** Entries of [sidebar-links.json]. *)
Record SidebarLink := mkSidebarLink { sl_title : string; sl_url : string }.

(** [loadSidebarLinks]: the file's links; [None] stands for a missing or
    unparsable file, read as [[]]. *)
Definition loadSidebarLinks (file : option (list SidebarLink)) : list SidebarLink :=
  match file with Some l => l | None => [] end.

(** POST /links; the second component is the links file afterwards. *)
Definition addSidebarLink (acl : Acl) (client : option string) (title url : option string)
  (file : option (list SidebarLink)) : Resp (list SidebarLink) * option (list SidebarLink) :=
  if negb (isAllowed (checkAdminPermission acl client)) then (Fail PermissionError, file)
  else
    match truthy title, truthy url with
    | Some t, Some u =>
      let links := loadSidebarLinks file ++ [mkSidebarLink t u] in (Ok links, Some links)
    | _, _ => (Fail ValidationError, file)
    end.

(** DELETE /links/:index; [index] is [parseInt(req.params.index)], [None]
    for [NaN]. *)
Definition deleteSidebarLink (acl : Acl) (client : option string) (index : option Z)
  (file : option (list SidebarLink)) : Resp (list SidebarLink) * option (list SidebarLink) :=
  if negb (isAllowed (checkAdminPermission acl client)) then (Fail PermissionError, file)
  else
    let links := loadSidebarLinks file in
    match index with
    | Some i =>
      if (i <? 0)%Z || (Z.of_nat (length links) <=? i)%Z then (Fail NotFoundError, file)
      else let links' := removeNth (Z.to_nat i) links in (Ok links', Some links')
    | None =>
      (* both comparisons with NaN are false; splice(NaN, 1) starts at 0 *)
      let links' := removeNth 0 links in (Ok links', Some links')
    end.

(** Entries of [cfg.data.links] (the /api/links routes). *)
Record Link := mkLink { lk_slug : string; lk_url : string; lk_title : string }.

(** POST /api/links; a missing [cfg.data.links] is [[]]. *)
Definition upsertLink (acl : Acl) (client : option string) (slug url title : option string)
  (links : list Link) : Resp Link * list Link :=
  match truthy slug, truthy url with
  | Some s, Some u =>
    if negb (isAllowed (checkAdminPermission acl client)) then (Fail PermissionError, links)
    else
      let link := mkLink s u (match truthy title with Some t => t | None => s end) in
      match findIndex (fun l => String.eqb (lk_slug l) s) links with
      | Some existingIndex => (Ok link, setNth links existingIndex link)
      | None => (Ok link, links ++ [link])
      end
  | _, _ => (Fail ValidationError, links)
  end.

(** DELETE /api/links/:slug. *)
Definition deleteLink (acl : Acl) (client : option string) (slug : string)
  (links : list Link) : Resp unit * list Link :=
  if negb (isAllowed (checkAdminPermission acl client)) then (Fail PermissionError, links)
  else
    let links' := filter (fun l => negb (String.eqb (lk_slug l) slug)) links in
    if Nat.eqb (length links') (length links) then (Fail NotFoundError, links)
    else (Ok tt, links').

(** JSON values of a settings update (numbers, booleans and [null]). *)
Inductive JVal :=
| JNum (q : Q)
| JBool (b : bool)
| JNull.

(** JavaScript's numeric conversion, as done by [<] and [>]. *)
Definition toNumber (v : JVal) : Q :=
  match v with
  | JNum q => q
  | JBool true => 1
  | JBool false => 0
  | JNull => 0
  end.

(** [value < lo || value > hi]. *)
Definition outside (v : JVal) (lo hi : Q) : bool :=
  negb (Qle_bool lo (toNumber v)) || negb (Qle_bool (toNumber v) hi).

Definition isBoolean (v : JVal) : bool :=
  match v with JBool _ => true | _ => false end.

Definition validFields : list string :=
  ["maxUploadSize"; "maxProcessedSize"; "maxWidth"; "jpegQuality"; "allowSvg"]%string.

(** The checks of one [[key, value]] entry; [true] answers 400. *)
Definition settingError (key : string) (value : JVal) : bool :=
  negb (memStr key validFields)
  || (String.eqb key "maxUploadSize" && outside value 1 50)
  || (String.eqb key "maxProcessedSize" && outside value (1 # 2) 10)
  || (String.eqb key "maxWidth" && outside value 256 4096)
  || (String.eqb key "jpegQuality" && outside value 50 100)
  || (String.eqb key "allowSvg" && negb (isBoolean value)).

(** [imageSettings[key] = value] on the settings object. *)
Fixpoint setKey (obj : list (string * JVal)) (key : string) (value : JVal)
  : list (string * JVal) :=
  match obj with
  | [] => [(key, value)]
  | (k, v) :: obj' =>
    if String.eqb k key then (key, value) :: obj' else (k, v) :: setKey obj' key value
  end.

(** The loop over [Object.entries(updates)], applying each entry to the
    in-memory settings; [None] when it returns 400. *)
Fixpoint applyUpdates (updates : list (string * JVal)) (settings : list (string * JVal))
  : option (list (string * JVal)) :=
  match updates with
  | [] => Some settings
  | (key, value) :: updates' =>
    if settingError key value then None
    else applyUpdates updates' (setKey settings key value)
  end.

(** PATCH /api/settings/image.  [req.boardConfig] is a fresh [Config]
    per request, so the second component, the settings stored after the
    request, changes only through [save()]. *)
Definition patchImageSettings (acl : Acl) (client : option string)
  (updates : list (string * JVal)) (stored : list (string * JVal))
  : Resp (list (string * JVal)) * list (string * JVal) :=
  if negb (isAllowed (checkAdminPermission acl client)) then (Fail PermissionError, stored)
  else
    match applyUpdates updates stored with
    | None => (Fail ValidationError, stored)
    | Some settings => (Ok settings, settings)
    end.

(** GET /api/config/view-mode. *)
Definition getViewMode (stored : option string) : string :=
  match truthy stored with Some m => m | None => "board" end.

(** PUT /api/config/view-mode. *)
Definition putViewMode (acl : Acl) (client : option string) (viewMode : option string)
  (stored : option string) : Resp string * option string :=
  if negb (isAllowed (checkAdminPermission acl client)) then (Fail PermissionError, stored)
  else
    match truthy viewMode with
    | Some m =>
      if String.eqb m "board" || String.eqb m "chat" then (Ok m, Some m)
      else (Fail ValidationError, stored)
    | None => (Fail ValidationError, stored)
    end.

(** [cleanup()]: flushes every domain whose chain is non-empty. *)
Definition cleanup (upload : Upload) (now : nat) (domainStates : list (string * DomainState))
  : list (string * DomainState) :=
  map (fun ds => if 0 <? length (postChain (snd ds))
                 then (fst ds, flushBatch upload now (snd ds)) else ds) domainStates.

(** Every post of [d] is stored under its id. *)
Definition stored (st : Storage) (d : Data) : Prop :=
  forall p, In p (d_posts d) -> readRecord (records st) (id p) = Some p.

Definition viewModeOk (stored : option string) : Prop :=
  getViewMode stored = "board"%string \/ getViewMode stored = "chat"%string.


(** The list starts with a non-blank character (or is empty). *)
Definition noLead (l : list ascii) : bool :=
  match l with [] => true | c :: _ => negb (is_ws c) end.

(** Sample image request: a JPEG data URL. *)
Definition jpegReq : PostReq :=
  mkPostReq (Some "0xa11ce"%string) " hi " (Some "data:image/jpeg;base64,AAAA"%string)
    None 1000.

(** The post [jpegReq] stores on an empty domain. *)
Definition jpegPost : Post :=
  mkPost 1 "hi" (Some "data:image/jpeg;base64,AAAA"%string) "0xa11ce" None 1000 [] None.

(** Two sidebar links, and one /api/links entry. *)
Definition sampleSidebarLinks : list SidebarLink :=
  [mkSidebarLink "Docs" "https://docs"; mkSidebarLink "Chat" "https://chat"].

Definition sampleLinks : list Link := [mkLink "docs" "https://old" "Docs"].


(** ** The batcher's await points

    [addPostToBatch] reads [state.lastHash] and [state.postChain.length],
    then awaits [signPostAsServer] and [uploadToIPFS] (a network round trip
    when an IPFS URL is configured) before it pushes the link and sets
    [lastHash]; [flushBatch] builds the summary from the chain, awaits its
    upload, then clears the chain and rehashes the [lastHash] of that
    moment.  Each POST starts its [addPostToBatch] through [setImmediate],
    with no queue or lock, so other appends and flushes of the domain may
    run at those points.  Neither awaited call reads the domain state, so
    one suspension point per function gives every state the code can
    reach. *)
Inductive BatchTask :=
| TAppend (post : Post) (userSig : option string) (now : nat)
  (* suspended at [await signPostAsServer] / [await uploadToIPFS(dataWallet)] *)
| TUpload (cp : ChainedPost) (w : DataWallet) (now : nat)
  (* [cleanup]'s call of [flushBatch] *)
| TFlush (now : nat)
  (* suspended at [await uploadToIPFS(batchSummary)] *)
| TFlushUpload (summary : BatchSummary)
| TDone.

(** [flushBatch] up to its await. *)
Definition flushStart (now : nat) (state : DomainState) : BatchTask * DomainState :=
  match postChain state with
  | [] => (TDone, state)
  | _ =>
    (TFlushUpload (mkBatchSummary (map summaryEntry (postChain state)) (lastHash state)
                     (length (postChain state)) now), state)
  end.

(** One run of a task up to its next await (or its end). *)
Definition stepTask (upload : Upload) (batchThreshold : nat) (state : DomainState)
  (t : BatchTask) : BatchTask * DomainState :=
  match t with
  | TAppend post userSig now =>
    let h := hashPost post (lastHash state) in
    let idx := length (postChain state) in
    (TUpload (mkChainedPost post h (lastHash state) idx userSig None)
             (mkDataWallet post h (lastHash state) idx) now, state)
  | TUpload cp w now =>
    let chainedPost := mkChainedPost (cp_post cp) (hash cp) (previousHash cp)
                         (chainIndex cp) (userSignature cp) (upload (PWallet w)) in
    let state1 := mkDomainState (postChain state ++ [chainedPost]) (hash cp) in
    if batchThreshold <=? length (postChain state1)
    then flushStart now state1     (* [await this.flushBatch(domain)] *)
    else (TDone, state1)
  | TFlush now => flushStart now state
  | TFlushUpload summary =>
    (* the summary's upload result is only logged *)
    (TDone, mkDomainState [] (Rehash (lastHash state)))
  | TDone => (TDone, state)
  end.

(** The event loop over a domain's pending batch tasks: [sched] lists which
    task resumes next. *)
Fixpoint runTasks (upload : Upload) (batchThreshold : nat) (sched : list nat)
  (ts : list BatchTask) (state : DomainState) : list BatchTask * DomainState :=
  match sched with
  | [] => (ts, state)
  | i :: sched' =>
    match nth_error ts i with
    | None => runTasks upload batchThreshold sched' ts state
    | Some t =>
      let (t', state') := stepTask upload batchThreshold state t in
      runTasks upload batchThreshold sched' (setNth ts i t') state'
    end
  end.

(** Two posts whose [addPostToBatch] calls overlap: both read the state
    before either pushes its link. *)
Definition overlapRun : list BatchTask * DomainState :=
  runTasks noUpload 5 [0; 1; 0; 1]
    [TAppend (samplePost 1) None 0; TAppend (samplePost 2) None 0] initDomainState.

(** With [batchThreshold = 2]: post 2 fills the batch and its flush awaits
    the summary upload while post 3's append starts. *)
Definition flushOverlapRun : list BatchTask * DomainState :=
  runTasks noUpload 2 [0; 0; 1; 1; 2; 1; 2]
    [TAppend (samplePost 1) None 0; TAppend (samplePost 2) None 0;
     TAppend (samplePost 3) None 0] initDomainState.

(** ** Chain batcher: proofs *)

Lemma linked_snoc (root : Hash) (c : list ChainedPost) (cp : ChainedPost) :
  linked root c ->
  previousHash cp = chainEnd root c ->
  hash cp = hashPost (cp_post cp) (chainEnd root c) ->
  linked root (c ++ [cp]).
Proof.
  revert root; induction c as [|x c IH]; simpl; intros root Hl Hp Hh.
  - repeat split; auto.
  - destruct Hl as (H1 & H2 & H3). repeat split; auto.
Qed.

Lemma chainEnd_snoc (root : Hash) (c : list ChainedPost) (cp : ChainedPost) :
  chainEnd root (c ++ [cp]) = hash cp.
Proof. revert root; induction c; simpl; auto. Qed.

Lemma linked_nth (root : Hash) (c : list ChainedPost) :
  linked root c ->
  (forall cp, nth_error c 0 = Some cp -> previousHash cp = root) /\
  (forall i a b, nth_error c i = Some a -> nth_error c (S i) = Some b ->
                 previousHash b = hash a).
Proof.
  revert root; induction c as [|x c IH]; intros root Hl; simpl in *.
  - split; [intros cp E; discriminate | intros [|i] a b E; discriminate].
  - destruct Hl as (H1 & _ & H3). split.
    + intros cp E; inversion E; subst; auto.
    + intros i a b Ea Eb. destruct i as [|i]; simpl in *.
      * inversion Ea; subst. destruct c as [|y c]; [discriminate|].
        simpl in Eb. inversion Eb; subst. apply H3.
      * exact (proj2 (IH _ H3) i a b Ea Eb).
Qed.

(** What one append does before the threshold test: the link takes the
    current [lastHash] and becomes the new [lastHash]. *)
Lemma addPostToBatch_link (upload : Upload) (thr now : nat) (p : Post)
  (s : option string) (st : DomainState) :
  let cp := snd (addPostToBatch upload thr now p s st) in
  previousHash cp = lastHash st /\ hash cp = hashPost p (lastHash st) /\
  cp_post cp = p /\ chainIndex cp = length (postChain st).
Proof. unfold addPostToBatch; simpl. destruct (thr <=? _); simpl; auto. Qed.

Lemma addPostToBatch_state (upload : Upload) (thr now : nat) (p : Post)
  (s : option string) (st : DomainState) :
  let '(st', cp) := addPostToBatch upload thr now p s st in
  let st1 := mkDomainState (postChain st ++ [cp]) (hash cp) in
  (S (length (postChain st)) < thr -> st' = st1) /\
  (thr <= S (length (postChain st)) -> st' = flushBatch upload now st1).
Proof.
  unfold addPostToBatch; simpl. rewrite length_app; simpl.
  destruct (thr <=? length (postChain st) + 1) eqn:E.
  - apply Nat.leb_le in E. split; intros; [lia | reflexivity].
  - apply Nat.leb_gt in E. split; intros; [reflexivity | lia].
Qed.

Lemma flushBatch_nonempty (upload : Upload) (now : nat) (st : DomainState) :
  postChain st <> [] ->
  flushBatch upload now st = mkDomainState [] (Rehash (lastHash st)).
Proof.
  intros Hne. unfold flushBatch.
  destruct (postChain st) eqn:E; [congruence|].
  destruct (upload _); reflexivity.
Qed.

Lemma forallb_firstn {A} (f : A -> bool) (k : nat) (l : list A) :
  forallb f l = true -> forallb f (firstn k l) = true.
Proof.
  revert k; induction l as [|x l IH]; intros [|k] H; simpl in *; auto.
  apply andb_true_iff in H as [H1 H2]. rewrite H1, IH; auto.
Qed.

Lemma runBatchOps_appends_below (upload : Upload) (thr : nat) (pre : list BatchOp) :
  forall st, forallb isAppend pre = true ->
  length (postChain st) + length pre < thr ->
  length (postChain (runBatchOps upload thr st pre)) = length (postChain st) + length pre.
Proof.
  induction pre as [|op pre IH]; intros st Hall Hlt; simpl in *; [lia|].
  destruct op as [p s n | n]; [|discriminate]. simpl in Hall.
  pose proof (addPostToBatch_state upload thr n p s st) as Hs.
  unfold runBatchOps in *. simpl.
  destruct (addPostToBatch upload thr n p s st) as [st' cp] eqn:E; simpl.
  rewrite (proj1 Hs) by lia.
  rewrite IH; simpl; auto; rewrite length_app; simpl in *; lia.
Qed.

Lemma HashPost_neq (p : Post) (h : Hash) : HashPost p h <> h.
Proof.
  revert p. induction h as [|p0 h IH|h IH]; intros p E; try discriminate.
  injection E as E1 E2. subst p0. exact (IH p E2).
Qed.

(** What one step of [runBatchOp] does to the current batch: it extends it
    under the same root, or closes it, leaving the root [H(lastHash)] of
    the chain it cleared for the next batch. *)
Lemma runBatchOp_batches (upload : Upload) (thr : nat) (root : Hash) (st : DomainState)
  (op : BatchOp) :
  chainFrom root st ->
  let st' := runBatchOp upload thr st op in
  (exists ext, postChain st' = postChain st ++ ext /\ chainFrom root st') \/
  (exists cleared, postChain st' = [] /\ cleared <> [] /\ linked root cleared /\
     (cleared = postChain st \/ exists cp, cleared = postChain st ++ [cp]) /\
     lastHash st' = Rehash (chainEnd root cleared)).
Proof.
  intros Hc st'. subst st'. destruct Hc as [Hl He].
  destruct op as [p s now | now]; simpl.
  - pose proof (addPostToBatch_link upload thr now p s st) as (Hp & Hh & Hpost & _).
    pose proof (addPostToBatch_state upload thr now p s st) as Hs.
    destruct (addPostToBatch upload thr now p s st) as [st' cp]; simpl in *.
    assert (Hl1 : linked root (postChain st ++ [cp]))
      by (apply linked_snoc; [exact Hl | rewrite Hp; exact He | rewrite Hh, Hpost, He; reflexivity]).
    destruct (Nat.lt_ge_cases (S (length (postChain st))) thr) as [Hlt | Hge].
    + left. exists [cp]. rewrite (proj1 Hs Hlt). simpl. split; [reflexivity|].
      split; [exact Hl1 | simpl; rewrite chainEnd_snoc; reflexivity].
    + right. exists (postChain st ++ [cp]). rewrite (proj2 Hs Hge).
      rewrite flushBatch_nonempty
        by (simpl; intros E; apply app_eq_nil in E as [_ E]; discriminate E).
      simpl. split; [reflexivity|]. split; [intros E; apply app_eq_nil in E as [_ E]; discriminate E|].
      split; [exact Hl1|]. split; [right; exists cp; reflexivity|].
      rewrite chainEnd_snoc. reflexivity.
  - destruct st as [[|x c] h]; simpl in *.
    + left. exists []. split; [reflexivity|]. split; assumption.
    + right. exists (x :: c). rewrite flushBatch_nonempty by (simpl; discriminate).
      simpl. split; [reflexivity|]. split; [discriminate|].
      split; [exact Hl|]. split; [left; reflexivity|]. rewrite He. reflexivity.
Qed.

(** Two appends that overlap: both read the state before either pushes. *)
Lemma overlap_appends (upload : Upload) (thr : nat) (st : DomainState) (p q : Post)
  (sp sq : option string) (np nq : nat) :
  length (postChain st) + 2 < thr ->
  exists a b,
    runTasks upload thr [0; 1; 0; 1] [TAppend p sp np; TAppend q sq nq] st
    = ([TDone; TDone], mkDomainState (postChain st ++ [a; b]) (hashPost q (lastHash st))) /\
    cp_post a = p /\ cp_post b = q /\
    previousHash a = lastHash st /\ previousHash b = lastHash st /\
    hash a = hashPost p (lastHash st) /\ hash b = hashPost q (lastHash st) /\
    chainIndex a = length (postChain st) /\ chainIndex b = length (postChain st).
Proof.
  intros H. cbn [runTasks nth_error stepTask setNth postChain lastHash].
  rewrite length_app. simpl length.
  destruct (thr <=? length (postChain st) + 1) eqn:E1;
    [apply Nat.leb_le in E1; lia|].
  cbn [runTasks nth_error stepTask setNth postChain lastHash].
  rewrite length_app, length_app. simpl length.
  destruct (thr <=? length (postChain st) + 1 + 1) eqn:E2;
    [apply Nat.leb_le in E2; lia|].
  cbn [runTasks nth_error stepTask setNth postChain lastHash
       cp_post hash previousHash chainIndex userSignature].
  do 2 eexists. split; [rewrite <- app_assoc; cbn [app]; reflexivity|].
  repeat split; reflexivity.
Qed.

(** An append that starts while the flush of the batch it filled awaits
    the summary upload. *)
Lemma append_during_flush (upload : Upload) (thr : nat) (st : DomainState) (p q : Post)
  (sp sq : option string) (np nq : nat) :
  1 < thr -> S (length (postChain st)) = thr ->
  snd (runTasks upload thr [0; 0; 1; 0] [TAppend p sp np; TAppend q sq nq] st)
  = mkDomainState [] (Rehash (hashPost p (lastHash st))) /\
  exists b,
    runTasks upload thr [0; 0; 1; 0; 1] [TAppend p sp np; TAppend q sq nq] st
    = ([TDone; TDone], mkDomainState [b] (hashPost q (hashPost p (lastHash st)))) /\
    previousHash b = hashPost p (lastHash st) /\ chainIndex b = thr.
Proof.
  intros H1 H2. destruct st as [c h]; simpl in H2 |- *.
  assert (E1 : forall x : ChainedPost, (thr <=? length (c ++ [x])) = true)
    by (intros x; rewrite length_app; simpl; apply Nat.leb_le; lia).
  assert (E3 : (thr <=? 1) = false) by (apply Nat.leb_gt; exact H1).
  cbn [runTasks nth_error stepTask setNth postChain lastHash]. rewrite E1.
  destruct c as [|y c]; [simpl in H2; lia|]. simpl. rewrite E3. simpl.
  split; [reflexivity|]. eexists. split; [reflexivity|]. split; [reflexivity|].
  simpl in H2 |- *. rewrite length_app. simpl. lia.
Qed.

(** Run alone, the tasks do what the atomic definitions do. *)
Lemma runTasks_alone (upload : Upload) (thr : nat) (st : DomainState) (p : Post)
  (s : option string) (now : nat) :
  runTasks upload thr [0; 0; 0] [TAppend p s now] st
  = ([TDone], fst (addPostToBatch upload thr now p s st)) /\
  runTasks upload thr [0; 0] [TFlush now] st = ([TDone], flushBatch upload now st).
Proof.
  split.
  - cbn [runTasks nth_error stepTask setNth postChain lastHash].
    unfold addPostToBatch. cbn zeta. cbn [postChain fst].
    destruct (thr <=? _); [|reflexivity].
    unfold flushStart, flushBatch. cbn [postChain lastHash].
    destruct (postChain st ++ _); [reflexivity|].
    cbn [runTasks nth_error stepTask setNth].
    destruct (upload (PSummary _)); reflexivity.
  - cbn [runTasks nth_error stepTask setNth].
    unfold flushStart, flushBatch. destruct (postChain st); [reflexivity|].
    cbn [runTasks nth_error stepTask setNth].
    destruct (upload (PSummary _)); reflexivity.
Qed.

(** C1 (amended).  Each link appended by [addPostToBatch] takes the
    [lastHash] read when the append starts as its [previousHash], and
    becomes the new [lastHash] when it is pushed.  Run alone, an append
    task does what the atomic [addPostToBatch] does.  When appends and
    flushes run one after another, the first batch starts from the genesis
    constant, and every step either extends the current batch under the
    same root, keeping [chain[i].previousHash = chain[i-1].hash] for
    [i > 0], or clears it and leaves [H(lastHash)] of the cleared chain as
    the next batch's root.  Appends are not serialized: two appends that
    overlap take the same [previousHash] and the same [chainIndex], so the
    second link does not point to the first; and an append that starts
    while a flush awaits its summary upload keeps the pre-flush [lastHash]
    as its [previousHash] and the old length as its [chainIndex]: the
    first link of the new batch does not point to its root. *)
Theorem chain_links_sequential (upload : Upload) (thr : nat) :
  (forall now p s st,
     let cp := snd (addPostToBatch upload thr now p s st) in
     previousHash cp = lastHash st /\ hash cp = hashPost p (lastHash st) /\
     (S (length (postChain st)) < thr ->
      fst (addPostToBatch upload thr now p s st)
      = mkDomainState (postChain st ++ [cp]) (hash cp))) /\
  (forall now p s st,
     runTasks upload thr [0; 0; 0] [TAppend p s now] st
     = ([TDone], fst (addPostToBatch upload thr now p s st))) /\
  chainFrom Genesis initDomainState /\
  (forall root st op, chainFrom root st ->
     let st' := runBatchOp upload thr st op in
     (exists ext, postChain st' = postChain st ++ ext /\ chainFrom root st') \/
     (exists cleared, postChain st' = [] /\ cleared <> [] /\ linked root cleared /\
        (cleared = postChain st \/ exists cp, cleared = postChain st ++ [cp]) /\
        lastHash st' = Rehash (chainEnd root cleared))) /\
  (forall st p q sp sq np nq, length (postChain st) + 2 < thr ->
     exists a b,
       runTasks upload thr [0; 1; 0; 1] [TAppend p sp np; TAppend q sq nq] st
       = ([TDone; TDone], mkDomainState (postChain st ++ [a; b]) (hashPost q (lastHash st))) /\
       previousHash b = previousHash a /\ previousHash b <> hash a /\
       chainIndex b = chainIndex a) /\
  (forall st p q sp sq np nq, 1 < thr -> S (length (postChain st)) = thr ->
     snd (runTasks upload thr [0; 0; 1; 0] [TAppend p sp np; TAppend q sq nq] st)
     = mkDomainState [] (Rehash (hashPost p (lastHash st))) /\
     exists b,
       runTasks upload thr [0; 0; 1; 0; 1] [TAppend p sp np; TAppend q sq nq] st
       = ([TDone; TDone], mkDomainState [b] (hashPost q (hashPost p (lastHash st)))) /\
       previousHash b <> Rehash (hashPost p (lastHash st)) /\ chainIndex b = thr).
Proof.
  split.
  { intros now p s st. pose proof (addPostToBatch_link upload thr now p s st) as (H1 & H2 & _).
    pose proof (addPostToBatch_state upload thr now p s st) as Hs.
    destruct (addPostToBatch upload thr now p s st) as [st' cp]; simpl in *.
    repeat split; auto. intros Hlt. exact (proj1 Hs Hlt). }
  split; [intros now p s st; exact (proj1 (runTasks_alone upload thr st p s now))|].
  split; [split; simpl; auto|].
  split; [exact (runBatchOp_batches upload thr)|].
  split.
  { intros st p q sp sq np nq H.
    destruct (overlap_appends upload thr st p q sp sq np nq H)
      as (a & b & E & _ & _ & Ha & Hb & Hha & _ & Hia & Hib).
    exists a, b. split; [exact E|]. split; [congruence|].
    split; [rewrite Hb, Hha; apply not_eq_sym, HashPost_neq | congruence]. }
  intros st p q sp sq np nq H1 H2.
  destruct (append_during_flush upload thr st p q sp sq np nq H1 H2) as (E1 & b & E2 & Hb & Hi).
  split; [exact E1|]. exists b. split; [exact E2|]. split; [rewrite Hb; discriminate | exact Hi].
Qed.

(** C1 (counterexample).  With [batchThreshold = 2], the third post opens
    the second batch: its [previousHash] is [H(lastHash)], not the genesis
    constant.  Two overlapping appends both take the genesis constant, so
    [chain[1].previousHash] is not [chain[0].hash].  And post 3's append,
    started while the flush of posts 1-2 awaits its summary upload, lands
    at position 0 with [chainIndex] 2 and a [previousHash] that is not the
    root [H(lastHash)] the flush left. *)
Lemma chain_links_break :
  (exists cp, nth_error (postChain (runBatchOps noUpload 2 initDomainState
                  [Append (samplePost 1) None 0; Append (samplePost 2) None 0;
                   Append (samplePost 3) None 0])) 0 = Some cp /\ previousHash cp <> Genesis) /\
  (exists a b, postChain (snd overlapRun) = [a; b] /\ previousHash b <> hash a) /\
  (exists c, postChain (snd flushOverlapRun) = [c] /\ chainIndex c = 2 /\
     previousHash c <> Rehash (hashPost (samplePost 2) (hashPost (samplePost 1) Genesis))).
Proof.
  split; [|split]; vm_compute.
  - eexists; split; [reflexivity | discriminate].
  - do 2 eexists; split; [reflexivity | discriminate].
  - eexists; split; [reflexivity|]; split; [reflexivity | discriminate].
Qed.


(** C2 (amended).  [flushBatch] on a non-empty chain clears the chain and
    sets [lastHash] to [H(lastHash)] whatever [uploadToIPFS] answers for the
    batch summary: a failed anchoring is only logged, the batch is not kept
    for a retry. *)
Theorem flush_clears_whatever_upload (upload : Upload) (now : nat) (st : DomainState) :
  postChain st <> [] ->
  postChain (flushBatch upload now st) = [] /\
  lastHash (flushBatch upload now st) = Rehash (lastHash st).
Proof. intros H. rewrite (flushBatch_nonempty upload now st H). simpl; auto. Qed.

Lemma flush_clears_whatever_upload_witness :
  postChain oneLinkState <> [] /\
  postChain (flushBatch noUpload 0 oneLinkState) = [] /\
  lastHash (flushBatch noUpload 0 oneLinkState) = Rehash (lastHash oneLinkState).
Proof.
  assert (H : postChain oneLinkState <> []) by (vm_compute; discriminate).
  split; [exact H | apply (flush_clears_whatever_upload noUpload 0 oneLinkState H)].
Defined.

(** C2 (counterexample).  A flush of a one-link chain whose summary upload
    fails leaves the chain empty, not un-cleared. *)
Lemma failed_flush_clears_chain :
  postChain oneLinkState <> [] /\ postChain (flushBatch noUpload 0 oneLinkState) = [].
Proof. split; [vm_compute; discriminate | reflexivity]. Qed.

(** C3.  From an empty chain, while fewer than [batchThreshold] posts have
    been appended the chain holds exactly those links; the
    [batchThreshold]-th append flushes: the chain is empty and [lastHash] is
    [H(lastHash)] of the last link's hash, a digest that is no post-derived
    chain hash. *)
Theorem threshold_flush (upload : Upload) (thr : nat) (h0 : Hash) (pre : list BatchOp)
  (p : Post) (s : option string) (n : nat) :
  forallb isAppend pre = true -> length pre + 1 = thr ->
  let st0 := mkDomainState [] h0 in
  let mid := runBatchOps upload thr st0 pre in
  (forall k, k <= length pre ->
     length (postChain (runBatchOps upload thr st0 (firstn k pre))) = k) /\
  runBatchOps upload thr st0 (pre ++ [Append p s n])
  = mkDomainState [] (Rehash (hashPost p (lastHash mid))) /\
  (forall q prev, Rehash (hashPost p (lastHash mid)) <> hashPost q prev).
Proof.
  intros Hall Hlen st0 mid.
  assert (Hk : forall k, k <= length pre ->
            length (postChain (runBatchOps upload thr st0 (firstn k pre))) = k).
  { intros k Hk. rewrite runBatchOps_appends_below.
    - simpl. rewrite length_firstn. lia.
    - apply forallb_firstn; exact Hall.
    - simpl. rewrite length_firstn. lia. }
  assert (Hmid : length (postChain mid) = length pre).
  { specialize (Hk (length pre) (le_n _)). rewrite firstn_all in Hk. exact Hk. }
  split; [exact Hk|].
  unfold runBatchOps at 1. rewrite fold_left_app. simpl.
  change (fold_left (runBatchOp upload thr) pre st0) with mid.
  pose proof (addPostToBatch_link upload thr n p s mid) as (_ & Hh & _).
  pose proof (addPostToBatch_state upload thr n p s mid) as Hs.
  destruct (addPostToBatch upload thr n p s mid) as [st' cp]; simpl in *.
  rewrite (proj2 Hs) by lia.
  rewrite flushBatch_nonempty.
  - simpl. rewrite Hh. split; [reflexivity | intros q prev; discriminate].
  - simpl. intros E. apply app_eq_nil in E as [_ E]. discriminate.
Qed.

Lemma threshold_flush_witness :
  forallb isAppend [Append (samplePost 1) None 0] = true /\
  length [Append (samplePost 1) None 0] + 1 = 2 /\
  runBatchOps noUpload 2 (mkDomainState [] Genesis)
    ([Append (samplePost 1) None 0] ++ [Append (samplePost 2) None 0])
  = mkDomainState [] (Rehash (hashPost (samplePost 2)
      (lastHash (runBatchOps noUpload 2 (mkDomainState [] Genesis)
                   [Append (samplePost 1) None 0])))).
Proof.
  split; [reflexivity|]. split; [reflexivity|].
  exact (proj1 (proj2 (threshold_flush noUpload 2 Genesis [Append (samplePost 1) None 0]
                         (samplePost 2) None 0 eq_refl eq_refl))).
Defined.

(** C6.  Once [submitPost] has stored a post, the response is that post
    whatever the content store does (the batching runs after the response);
    with every upload failing, the post still gets its link, whose anchor
    ([ipfsHash]/[ipfsUrl]) is unset, appended to the chain (which is then
    flushed as usual once it reaches the threshold). *)
Theorem anchor_failure_isolated (sanitizeSvg : string -> option string)
  (cfg : BoardConfig) (acl : Acl) (thr : nat) (req : PostReq) (st : Storage)
  (ds : DomainState) (post : Post) (st' : Storage) :
  submitPost sanitizeSvg cfg acl req st = (Ok post, st') ->
  (forall upload,
     fst (submitPostAndBatch sanitizeSvg cfg acl upload thr req st ds) = (Ok post, st')) /\
  (let cp := snd (addPostToBatch noUpload thr (req_now req) post None ds) in
   let ds' := snd (submitPostAndBatch sanitizeSvg cfg acl noUpload thr req st ds) in
   cp_post cp = post /\ ipfs cp = None /\
   (S (length (postChain ds)) < thr -> postChain ds' = postChain ds ++ [cp]) /\
   (thr <= S (length (postChain ds)) -> postChain ds' = [])).
Proof.
  intros H. unfold submitPostAndBatch. rewrite H. split; [reflexivity|].
  pose proof (addPostToBatch_link noUpload thr (req_now req) post None ds) as (_ & _ & Hp & _).
  pose proof (addPostToBatch_state noUpload thr (req_now req) post None ds) as Hs.
  assert (Hi : ipfs (snd (addPostToBatch noUpload thr (req_now req) post None ds)) = None).
  { unfold addPostToBatch. simpl. destruct (_ <=? _); reflexivity. }
  destruct (addPostToBatch noUpload thr (req_now req) post None ds) as [ds1 cp]; simpl in *.
  repeat split; auto.
  - intros Hlt. rewrite (proj1 Hs Hlt). reflexivity.
  - intros Hge. rewrite (proj2 Hs Hge).
    rewrite flushBatch_nonempty; [reflexivity|].
    simpl. intros E. apply app_eq_nil in E as [_ E]. discriminate.
Qed.

Lemma anchor_failure_isolated_witness :
  submitPost keepSvg sampleCfg (levelAcl 2) (sampleReq "p1") emptyStorage
  = (Ok samplePost1, sampleStorage1) /\
  fst (submitPostAndBatch keepSvg sampleCfg (levelAcl 2) noUpload 5 (sampleReq "p1")
         emptyStorage initDomainState) = (Ok samplePost1, sampleStorage1).
Proof.
  assert (H : submitPost keepSvg sampleCfg (levelAcl 2) (sampleReq "p1") emptyStorage
              = (Ok samplePost1, sampleStorage1)) by (vm_compute; reflexivity).
  split; [exact H|].
  exact (proj1 (anchor_failure_isolated keepSvg sampleCfg (levelAcl 2) 5 (sampleReq "p1")
                  emptyStorage initDomainState samplePost1 sampleStorage1 H) noUpload).
Defined.

(** ** Access gate and channels: proofs *)

Lemma validatePost_validation (sanitizeSvg : string -> option string)
  (cfg : BoardConfig) (req : PostReq) (e : Err) :
  validatePost sanitizeSvg cfg req = Some e -> e = ValidationError.
Proof.
  unfold validatePost, validateImage.
  repeat match goal with
         | |- context [if ?b then _ else _] => destruct b
         | |- context [match ?x with _ => _ end] => destruct x
         end; congruence.
Qed.

Lemma submitPost_denied (sanitizeSvg : string -> option string) (cfg : BoardConfig)
  (acl : Acl) (req : PostReq) (st : Storage) (reason : string) :
  checkPostingPermission acl (client req) = Denied reason ->
  snd (submitPost sanitizeSvg cfg acl req st) = st /\
  (fst (submitPost sanitizeSvg cfg acl req st) = Fail PermissionError \/
   fst (submitPost sanitizeSvg cfg acl req st) = Fail ValidationError) /\
  (validatePost sanitizeSvg cfg req = None ->
   fst (submitPost sanitizeSvg cfg acl req st) = Fail PermissionError).
Proof.
  intros Hd. unfold submitPost.
  destruct (validatePost sanitizeSvg cfg req) as [e|] eqn:Ev.
  - apply validatePost_validation in Ev; subst. simpl. split; auto. split; auto.
    intros; discriminate.
  - rewrite Hd. simpl. auto.
Qed.

(** C4 (amended).  A caller whose resolved level is below Poster (level
    [< 2], e.g. Reader) never causes a mutation: the stored records, the
    index with its [nextId], and the chain are unchanged; the answer is
    [PermissionError] whenever the input passes the validation that
    precedes the permission check, and [ValidationError] otherwise. *)
Theorem below_poster_no_mutation (sanitizeSvg : string -> option string)
  (cfg : BoardConfig) (acl : Acl) (upload : Upload) (thr : nat) (req : PostReq)
  (st : Storage) (ds : DomainState) (a : string) (level : nat) :
  client req = Some a -> checkAgentAccess acl a = Some level -> level < 2 ->
  let res := submitPostAndBatch sanitizeSvg cfg acl upload thr req st ds in
  snd (fst res) = st /\ snd res = ds /\
  (fst (fst res) = Fail PermissionError \/ fst (fst res) = Fail ValidationError) /\
  (validatePost sanitizeSvg cfg req = None -> fst (fst res) = Fail PermissionError).
Proof.
  intros Hc Ha Hl res.
  assert (Hd : checkPostingPermission acl (client req)
               = Denied "You need editor privileges to post. Request access in the sidebar.").
  { unfold checkPostingPermission. rewrite Hc, Ha.
    destruct (2 <=? level) eqn:E; [apply Nat.leb_le in E; lia | reflexivity]. }
  destruct (submitPost_denied sanitizeSvg cfg acl req st _ Hd) as (H1 & H2 & H3).
  unfold res, submitPostAndBatch.
  destruct (submitPost sanitizeSvg cfg acl req st) as [[post|e] st'] eqn:E; simpl in *.
  - destruct H2; discriminate.
  - subst. repeat split; auto.
Qed.

Lemma below_poster_no_mutation_witness :
  client (sampleReq "p1") = Some "0xa11ce"%string /\
  checkAgentAccess (levelAcl 1) "0xa11ce" = Some 1 /\ 1 < 2 /\
  snd (fst (submitPostAndBatch keepSvg sampleCfg (levelAcl 1) noUpload 5 (sampleReq "p1")
              emptyStorage initDomainState)) = emptyStorage.
Proof.
  split; [reflexivity|]. split; [reflexivity|]. split; [lia|].
  exact (proj1 (below_poster_no_mutation keepSvg sampleCfg (levelAcl 1) noUpload 5
                  (sampleReq "p1") emptyStorage initDomainState "0xa11ce" 1
                  eq_refl eq_refl (le_n 2))).
Defined.

(** C4 (counterexample).  A Reader submitting blank text gets
    [ValidationError], not [PermissionError]: validation runs first. *)
Lemma reader_blank_post_validation_error :
  fst (submitPost keepSvg sampleCfg (levelAcl 1) (sampleReq "   ") emptyStorage)
  = Fail ValidationError.
Proof. vm_compute. reflexivity. Qed.

(** C5 (code bug).  When the ACL oracle throws, writes are denied
    ([checkPostingPermission] catches), but listing posts as an
    authenticated caller answers 500: [getAccessibleChannelNames] has no
    [try] and the route's [catch] turns the error into a failure. *)
Theorem oracle_down_reads_fail (cfg : BoardConfig) (acl : Acl) (a : string)
  (q : option string) (st : Storage) :
  checkAgentAccess acl a = None -> readData st <> None ->
  fst (listPosts cfg acl (Some a) q st) = Fail ServerError /\
  (forall sanitizeSvg req, client req = Some a -> validatePost sanitizeSvg cfg req = None ->
     submitPost sanitizeSvg cfg acl req st = (Fail PermissionError, st)) /\
  (forall postId txt now, isBlank txt = false ->
     submitComment acl (Some a) postId txt now st = (Fail PermissionError, st)).
Proof.
  intros Ho Hr. repeat split.
  - unfold listPosts. destruct (readData st) as [[data st1]|]; [|congruence].
    unfold getAccessibleChannelNames. rewrite Ho. reflexivity.
  - intros sanitizeSvg req Hc Hv. unfold submitPost. rewrite Hv.
    unfold checkPostingPermission. rewrite Hc, Ho. reflexivity.
  - intros postId txt now Hb. unfold submitComment. rewrite Hb.
    unfold checkPostingPermission. rewrite Ho. reflexivity.
Qed.

Lemma oracle_down_reads_fail_witness :
  checkAgentAccess downAcl "0xa11ce" = None /\ readData sampleStorage1 <> None /\
  fst (listPosts sampleCfg downAcl (Some "0xa11ce"%string) None sampleStorage1)
  = Fail ServerError.
Proof.
  assert (Hr : readData sampleStorage1 <> None) by (vm_compute; discriminate).
  split; [reflexivity|]. split; [exact Hr|].
  exact (proj1 (oracle_down_reads_fail sampleCfg downAcl "0xa11ce" None sampleStorage1
                  eq_refl Hr)).
Defined.

(** C8 (amended).  Channel creation by an admin succeeds exactly when the
    name matches [[a-z0-9-]+], is not the reserved name "general" and is no
    existing channel's name; a success appends the channel, any failure
    leaves the channel list unchanged, and an admin's failures are
    validation errors. *)
Theorem create_channel_rules (acl : Acl) (client : option string) (name : string)
  (listName : option string) (chs : list Channel) :
  let ch := mkChannel name (truthy listName) in
  let r := createChannel acl client name listName chs in
  (fst r = Ok ch <->
   (exists a n, checkAdminPermission acl client = Allowed a n) /\
   validChannelName name = true /\ name <> "general"%string /\
   channelExists chs name = false) /\
  (fst r = Ok ch -> snd r = chs ++ [ch]) /\
  (forall e, fst r = Fail e -> snd r = chs) /\
  ((exists a n, checkAdminPermission acl client = Allowed a n) ->
   forall e, fst r = Fail e -> e = ValidationError).
Proof.
  intros ch r. unfold r, createChannel.
  destruct (checkAdminPermission acl client) as [a n|reason] eqn:Hadm; simpl.
  2:{ split; [split; [discriminate | intros ((a & n & H) & _); discriminate]|].
      split; [discriminate|]. split; [reflexivity|].
      intros (a & n & H); discriminate. }
  destruct (validChannelName name) eqn:Hv; simpl.
  2:{ split; [split; [discriminate | intros (_ & H & _); discriminate]|].
      split; [discriminate|]. split; [reflexivity|].
      intros _ e H; injection H as <-; reflexivity. }
  destruct (String.eqb name "general") eqn:Hg; simpl.
  { apply String.eqb_eq in Hg.
    split; [split; [discriminate | intros (_ & _ & H & _); contradiction]|].
    split; [discriminate|]. split; [reflexivity|].
    intros _ e H; injection H as <-; reflexivity. }
  apply String.eqb_neq in Hg.
  destruct (channelExists chs name) eqn:He; simpl.
  { split; [split; [discriminate | intros (_ & _ & _ & H); discriminate]|].
    split; [discriminate|]. split; [reflexivity|].
    intros _ e H; injection H as <-; reflexivity. }
  split; [split; [intros _; split; [eauto | auto] | intros _; reflexivity]|].
  split; [intros _; reflexivity|]. split; intros; discriminate.
Qed.

(** C8 (counterexample).  An admin can create a channel named "default". *)
Lemma default_channel_creatable :
  createChannel (levelAcl 3) (Some "0xa11ce"%string) "default" None []
  = (Ok (mkChannel "default" None), [mkChannel "default" None]).
Proof. reflexivity. Qed.

(** ** Storage backend: proofs *)

Lemma readRecord_writeRecord (rs : list (nat * Post)) (p : Post) (k : nat) :
  readRecord (writeRecord rs p) k = if Nat.eqb (id p) k then Some p else readRecord rs k.
Proof.
  unfold readRecord, writeRecord. simpl.
  destruct (Nat.eqb (id p) k) eqn:E; [reflexivity|].
  induction rs as [|[k' q] rs IH]; simpl; [reflexivity|].
  destruct (Nat.eqb k' (id p)) eqn:E1; simpl.
  - apply Nat.eqb_eq in E1; subst. rewrite E. exact IH.
  - destruct (Nat.eqb k' k); [reflexivity | exact IH].
Qed.

(** Record a fold of writes leaves at [k]: the last written post with id [k]. *)
Definition lastWrite (k : nat) (acc : option Post) (p : Post) : option Post :=
  if Nat.eqb (id p) k then Some p else acc.

Lemma readRecord_writeRecords (ps : list Post) :
  forall rs k, readRecord (fold_left writeRecord ps rs) k
               = fold_left (lastWrite k) ps (readRecord rs k).
Proof.
  induction ps as [|p ps IH]; intros rs k; simpl; [reflexivity|].
  rewrite IH, readRecord_writeRecord. reflexivity.
Qed.

Lemma lastWrite_fold (k : nat) (ps : list Post) :
  forall x, fold_left (lastWrite k) ps x
            = match fold_left (lastWrite k) ps None with Some q => Some q | None => x end.
Proof.
  induction ps as [|p ps IH]; intros x; simpl; [reflexivity|].
  rewrite (IH (lastWrite k x p)), (IH (lastWrite k None p)).
  destruct (fold_left (lastWrite k) ps None); [reflexivity|].
  unfold lastWrite. destruct (Nat.eqb (id p) k); reflexivity.
Qed.

Lemma migrate_idempotent (st : Storage) (d1 : Data) (st1 : Storage) :
  migrateLegacyData st = Some (d1, st1) ->
  exists st2, migrateLegacyData st1 = Some (d1, st2) /\
    indexFile st2 = indexFile st1 /\ legacy st2 = legacy st1 /\
    (forall k, readRecord (records st2) k = readRecord (records st1) k).
Proof.
  intros H. unfold migrateLegacyData in *.
  destruct (legacy st) as [|l|] eqn:El; inversion H; subst; clear H; simpl.
  - rewrite El. eexists; repeat split; auto.
  - eexists; repeat split; auto. intros k. simpl.
    rewrite !readRecord_writeRecords, lastWrite_fold.
    rewrite (lastWrite_fold k (l_posts l) (readRecord (records st) k)).
    destruct (fold_left (lastWrite k) (l_posts l) None); reflexivity.
Qed.

Lemma readData_indexOk (st : Storage) (index : Index) :
  indexFile st = Some (IndexOk index) ->
  exists d, readData st = Some (d, st).
Proof. intros H. unfold readData. rewrite H. eauto. Qed.

(** C7 (code bug).  Migration itself is idempotent: a second run over the
    migrated storage returns the same data, writes the same index and leaves
    the same record behind every id; and a readable index is read without
    migrating.  But [readData] migrates whenever reading or parsing the
    index fails: on a domain whose index file exists but cannot be parsed,
    it migrates again, the index is rebuilt from the legacy monolith alone
    (post 2 drops out of it) and the next post reuses id 2. *)
Theorem corrupt_index_remigrates :
  (forall st d1 st1, migrateLegacyData st = Some (d1, st1) ->
     exists st2, migrateLegacyData st1 = Some (d1, st2) /\
       indexFile st2 = indexFile st1 /\
       (forall k, readRecord (records st2) k = readRecord (records st1) k)) /\
  (forall st index, indexFile st = Some (IndexOk index) ->
     exists d, readData st = Some (d, st)) /\
  match readData corruptIndexStorage with
  | Some (d, st') =>
    indexFile st' = Some (IndexOk (mkIndex 2 [metaOf (samplePost 1)])) /\ d_nextId d = 2
  | None => False
  end /\
  respId (fst (submitPost keepSvg sampleCfg (levelAcl 2) (sampleReq "p3")
                 corruptIndexStorage)) = Some 2.
Proof.
  split.
  { intros st d1 st1 H. destruct (migrate_idempotent st d1 st1 H) as (st2 & H1 & H2 & _ & H4).
    eauto. }
  split; [exact readData_indexOk|].
  split; vm_compute; auto.
Qed.

(** ** Id allocation: proofs *)








(** ** Newest-first order: proofs *)

Lemma recordsOk_writeRecord (rs : list (nat * Post)) (p : Post) :
  recordsOk rs -> recordsOk (writeRecord rs p).
Proof.
  intros H k q. rewrite readRecord_writeRecord.
  destruct (Nat.eqb (id p) k) eqn:E.
  - intros Hq; inversion Hq; subst. apply Nat.eqb_eq; exact E.
  - apply H.
Qed.

Lemma recordsOk_writeRecords (ps : list Post) :
  forall rs, recordsOk rs -> recordsOk (fold_left writeRecord ps rs).
Proof.
  induction ps as [|p ps IH]; intros rs H; simpl; auto.
  apply IH, recordsOk_writeRecord, H.
Qed.

Lemma loadPosts_in (rs : list (nat * Post)) (ms : list Meta) (p : Post) :
  recordsOk rs -> In p (loadPosts rs ms) -> exists m, In m ms /\ id p = m_id m.
Proof.
  intros Hr. induction ms as [|m ms IH]; simpl; [tauto|].
  destruct (readRecord rs (m_id m)) as [q|] eqn:E.
  - intros [<- | Hin]; [exists m; split; auto | destruct (IH Hin) as (m' & ? & ?); eauto].
  - intros Hin; destruct (IH Hin) as (m' & ? & ?); eauto.
Qed.

Lemma loadPosts_desc (rs : list (nat * Post)) (ms : list Meta) :
  recordsOk rs -> descMeta ms -> descIds (loadPosts rs ms).
Proof.
  intros Hr. induction ms as [|m ms IH]; simpl; [tauto|].
  intros [Hf Hd]. destruct (readRecord rs (m_id m)) as [q|] eqn:E; simpl; auto.
  split; auto. apply Forall_forall. intros x Hx.
  destruct (loadPosts_in rs ms x Hr Hx) as (m' & Hm' & Hid).
  rewrite Hid, (Hr _ _ E). exact (proj1 (Forall_forall _ _) Hf m' Hm').
Qed.

Lemma loadPosts_bound (rs : list (nat * Post)) (ms : list Meta) (b : nat) :
  recordsOk rs -> Forall (fun m => m_id m < b) ms -> Forall (fun p => id p < b) (loadPosts rs ms).
Proof.
  intros Hr Hb. apply Forall_forall. intros x Hx.
  destruct (loadPosts_in rs ms x Hr Hx) as (m & Hm & ->).
  exact (proj1 (Forall_forall _ _) Hb m Hm).
Qed.

Lemma maxId_bound (ps : list Post) : Forall (fun p => id p < maxId ps + 1) ps.
Proof.
  apply Forall_forall. intros x Hx.
  assert (id x <= maxId ps); [|lia].
  induction ps as [|p ps IH]; simpl in *; [contradiction|].
  destruct Hx as [<- | Hx]; [lia | specialize (IH Hx); lia].
Qed.

Lemma descMeta_map (ps : list Post) : descIds ps -> descMeta (map metaOf ps).
Proof.
  induction ps as [|p ps IH]; simpl; auto. intros [Hf Hd]. split; auto.
  apply Forall_map. exact Hf.
Qed.

Lemma readData_ok (st : Storage) (d : Data) (st1 : Storage) :
  storageOk st -> readData st = Some (d, st1) -> dataOk d /\ storageOk st1.
Proof.
  intros Hs E. pose proof Hs as (Hr & Hi & Hl). unfold readData in E.
  destruct (indexFile st) as [[index|]|] eqn:Ef.
  1:{ injection E as <- <-. split; [|exact Hs].
      destruct Hi as [Hd Hn]. split; [apply loadPosts_desc; auto|]. simpl.
      destruct (Nat.eqb (nextId index) 0) eqn:E0.
      - apply maxId_bound.
      - apply Nat.eqb_neq in E0. destruct Hn as [Hn|Hn]; [contradiction|].
        apply loadPosts_bound; auto. }
  all: unfold migrateLegacyData in E; destruct (legacy st) as [|l|] eqn:El;
    try discriminate; injection E as <- <-.
  all: try (split; [split; [exact I | constructor] | exact Hs]).
  all: simpl in Hl; split; [exact Hl|].
  all: split; [apply recordsOk_writeRecords; exact Hr|]; simpl.
  all: split; [|exact Hl].
  all: destruct Hl as [Hd Hb]; split; [apply descMeta_map; exact Hd|].
  all: right; apply Forall_map; exact Hb.
Qed.

Lemma writeData_ok (st : Storage) (d : Data) :
  storageOk st -> dataOk d -> storageOk (writeData st d).
Proof.
  intros (Hr & _ & Hl) [Hd Hb]. split; [exact Hr|]. split; [|exact Hl]. simpl.
  split; [apply descMeta_map; exact Hd | right; apply Forall_map; exact Hb].
Qed.

Lemma writePost_ok (st : Storage) (p : Post) : storageOk st -> storageOk (writePost st p).
Proof.
  intros (Hr & Hi & Hl). split; [apply recordsOk_writeRecord; exact Hr | split; assumption].
Qed.

Lemma buildPost_ok (req : PostReq) (a : string) (nm : option string) (d : Data) :
  dataOk d -> dataOk (snd (buildPost req a nm d)) /\
              id (fst (buildPost req a nm d)) = d_nextId d.
Proof.
  intros [Hd Hb]. simpl. split; [|reflexivity]. split; simpl.
  - split; [exact Hb | exact Hd].
  - constructor; [simpl; lia|]. eapply Forall_impl; [|exact Hb]. simpl; intros; lia.
Qed.

Lemma stepHandler_ok (sanitizeSvg : string -> option string) (cfg : BoardConfig)
  (acl : Acl) (st : Storage) (h : Handler) :
  storageOk st -> handlerOk h ->
  storageOk (snd (stepHandler sanitizeSvg cfg acl st h)) /\
  handlerOk (fst (stepHandler sanitizeSvg cfg acl st h)).
Proof.
  intros Hs Hh. destruct h as [req | req a nm d | post d | r]; simpl in *.
  - destruct (validatePost sanitizeSvg cfg req); simpl; [auto|].
    destruct (checkPostingPermission acl (client req)); simpl; [|auto].
    destruct (readData st) as [[d st1]|] eqn:E; simpl; [|auto].
    destruct (readData_ok st d st1 Hs E) as [Hd Hs1]. auto.
  - destruct (buildPost_ok req a nm d Hh) as [Hd _].
    split; [apply writePost_ok; exact Hs | exact Hd].
  - split; [apply writeData_ok; assumption | exact I].
  - auto.
Qed.

Lemma Forall_setNth {A} (P : A -> Prop) (l : list A) (i : nat) (x : A) :
  Forall P l -> P x -> Forall P (setNth l i x).
Proof.
  revert i; induction l as [|y l IH]; intros [|i] Hl Hx; simpl; auto;
    inversion Hl; subst; constructor; auto.
Qed.

Lemma runSchedule_ok (sanitizeSvg : string -> option string) (cfg : BoardConfig)
  (acl : Acl) (sched : list nat) :
  forall hs st, storageOk st -> Forall handlerOk hs ->
  storageOk (snd (runSchedule sanitizeSvg cfg acl sched hs st)) /\
  Forall handlerOk (fst (runSchedule sanitizeSvg cfg acl sched hs st)).
Proof.
  induction sched as [|i sched IH]; intros hs st Hs Hh; simpl; [auto|].
  destruct (nth_error hs i) as [h|] eqn:E; [|apply IH; auto].
  assert (Hh1 : handlerOk h)
    by (exact (proj1 (Forall_forall _ _) Hh h (nth_error_In _ _ E))).
  destruct (stepHandler_ok sanitizeSvg cfg acl st h Hs Hh1) as [Hs' Hh'].
  destruct (stepHandler sanitizeSvg cfg acl st h) as [h' st']; simpl in *.
  apply IH; [exact Hs' | apply Forall_setNth; assumption].
Qed.

Lemma descIds_filter (f : Post -> bool) (ps : list Post) :
  descIds ps -> descIds (filter f ps).
Proof.
  induction ps as [|p ps IH]; simpl; auto. intros [Hf Hd].
  destruct (f p); simpl; auto. split; auto.
  apply Forall_forall. intros x Hx. apply filter_In in Hx as [Hx _].
  exact (proj1 (Forall_forall _ _) Hf x Hx).
Qed.

Lemma listPosts_desc (cfg : BoardConfig) (acl : Acl) (client : option string)
  (q : option string) (st : Storage) (ps : list Post) (st' : Storage) :
  storageOk st -> listPosts cfg acl client q st = (Ok ps, st') -> descIds ps.
Proof.
  intros Hs. unfold listPosts.
  destruct (readData st) as [[d st1]|] eqn:E; [|discriminate].
  destruct (readData_ok st d st1 Hs E) as [[Hd _] _].
  destruct (getAccessibleChannelNames cfg acl client) as [acc|]; [|discriminate].
  destruct (truthy q) as [c|].
  - destruct (negb (memStr c acc)); [discriminate|].
    destruct (String.eqb c "general"); intros H; inversion H; subst;
      repeat apply descIds_filter; exact Hd.
  - intros H; inversion H; subst. apply descIds_filter; exact Hd.
Qed.

(** C10.  [submitPost] puts the new post first in the index it writes, and
    however the post handlers of a domain interleave (one after another
    being one case), starting from empty storage, the index keeps ids in
    strictly decreasing order and every list the read operation returns
    is in strictly decreasing id order. *)
Theorem newest_first (sanitizeSvg : string -> option string) (cfg : BoardConfig)
  (acl : Acl) :
  (forall req st post st', submitPost sanitizeSvg cfg acl req st = (Ok post, st') ->
     match indexFile st' with
     | Some (IndexOk index) => hd_error (idx_posts index) = Some (metaOf post)
     | _ => False
     end) /\
  (forall sched reqs,
     let st := snd (runSchedule sanitizeSvg cfg acl sched (map HStart reqs) emptyStorage) in
     (match indexFile st with
      | Some (IndexOk index) => descMeta (idx_posts index)
      | _ => True
      end) /\
     (forall acl' client q ps st', listPosts cfg acl' client q st = (Ok ps, st') ->
        descIds ps)).
Proof.
  split.
  - intros req st post st'. unfold submitPost.
    destruct (validatePost sanitizeSvg cfg req); [discriminate|].
    destruct (checkPostingPermission acl (client req)); [|discriminate].
    destruct (readData st) as [[d st1]|]; [|discriminate].
    simpl. intros H; inversion H; subst. reflexivity.
  - intros sched reqs st.
    assert (Hs : storageOk st).
    { apply runSchedule_ok.
      - split; [intros k p E; discriminate | split; exact I].
      - apply Forall_forall. intros h Hh. apply in_map_iff in Hh as (r & <- & _). exact I. }
    split.
    + destruct Hs as (_ & Hi & _). destruct (indexFile st) as [[index|]|]; auto.
      exact (proj1 Hi).
    + intros acl' client q ps st'. apply listPosts_desc. exact Hs.
Qed.

(** ** Further routes: proofs *)

Lemma dropWs_noLead (l : list ascii) : noLead (dropWs l) = true.
Proof.
  induction l as [|c l IH]; simpl; [reflexivity|].
  destruct (is_ws c) eqn:E; [exact IH|]. simpl. rewrite E. reflexivity.
Qed.

Lemma noLead_dropWs (l : list ascii) : noLead l = true -> dropWs l = l.
Proof.
  destruct l as [|c l]; simpl; [reflexivity|].
  intros H. destruct (is_ws c); [discriminate | reflexivity].
Qed.

Lemma noLead_prefix (l1 l2 : list ascii) : noLead (l1 ++ l2) = true -> noLead l1 = true.
Proof. destruct l1; simpl; auto. Qed.

Lemma dropWs_suffix (l : list ascii) : exists p, l = p ++ dropWs l.
Proof.
  induction l as [|c l [p Hp]]; simpl; [exists []; reflexivity|].
  destruct (is_ws c).
  - exists (c :: p). simpl. congruence.
  - exists []. reflexivity.
Qed.

Lemma trim_idem (s : string) : trim (trim s) = trim s.
Proof.
  unfold trim. rewrite list_ascii_of_string_of_list_ascii. f_equal.
  set (A := dropWs (list_ascii_of_string s)).
  assert (HA : noLead A = true) by apply dropWs_noLead.
  destruct (dropWs_suffix (rev A)) as [p Hp].
  assert (Hpre : A = rev (dropWs (rev A)) ++ rev p).
  { rewrite <- rev_app_distr, <- Hp, rev_involutive. reflexivity. }
  assert (Hn : noLead (rev (dropWs (rev A))) = true).
  { apply (noLead_prefix _ (rev p)). rewrite <- Hpre. exact HA. }
  rewrite (noLead_dropWs _ Hn), rev_involutive.
  rewrite (noLead_dropWs (dropWs (rev A))) by apply dropWs_noLead. reflexivity.
Qed.

Lemma truthy_some (s : option string) (c : string) :
  truthy s = Some c -> truthy (Some c) = Some c.
Proof.
  destruct s as [s|]; simpl; [|discriminate].
  destruct (String.eqb s "") eqn:E; intros H; inversion H; subst. simpl. rewrite E. reflexivity.
Qed.

(** X1.  The text of a stored post is the request's text trimmed: it has
    no surrounding white space and is never empty. *)
Theorem post_text_trimmed (sanitizeSvg : string -> option string) (cfg : BoardConfig)
  (acl : Acl) (req : PostReq) (st : Storage) (post : Post) (st' : Storage) :
  submitPost sanitizeSvg cfg acl req st = (Ok post, st') ->
  text post = trim (req_text req) /\ trim (text post) = text post /\ text post <> ""%string.
Proof.
  unfold submitPost. destruct (validatePost sanitizeSvg cfg req) eqn:Ev; [discriminate|].
  destruct (checkPostingPermission acl (client req)); [|discriminate].
  destruct (readData st) as [[d st1]|]; [|discriminate].
  simpl. intros H. inversion H; subst; clear H. simpl.
  unfold validatePost in Ev. destruct (isBlank (req_text req)) eqn:Eb; [discriminate|].
  split; [reflexivity|]. split; [apply trim_idem|].
  intros E. unfold isBlank in Eb. rewrite E in Eb. discriminate.
Qed.

Lemma post_text_trimmed_witness :
  submitPost keepSvg sampleCfg (levelAcl 2) jpegReq emptyStorage
  = (Ok jpegPost, snd (submitPost keepSvg sampleCfg (levelAcl 2) jpegReq emptyStorage)) /\
  text jpegPost
    = trim (req_text jpegReq) /\
  trim (text jpegPost)
    = text jpegPost /\
  text jpegPost
    <> ""%string.
Proof.
  assert (H : submitPost keepSvg sampleCfg (levelAcl 2) jpegReq emptyStorage
    = (Ok jpegPost, snd (submitPost keepSvg sampleCfg (levelAcl 2) jpegReq emptyStorage)))
    by (vm_compute; reflexivity).
  split; [exact H|].
  exact (post_text_trimmed keepSvg sampleCfg (levelAcl 2) jpegReq emptyStorage _ _ H).
Defined.

(** X2.  An image is stored only when it is a data URL within the size
    bound that is a JPEG, or an SVG while SVGs are allowed and the
    sanitizer accepts it; the stored image is the request's data URL as
    sent, not the sanitizer's output. *)
Theorem post_image_checked (sanitizeSvg : string -> option string) (cfg : BoardConfig)
  (acl : Acl) (req : PostReq) (st : Storage) (post : Post) (st' : Storage) :
  submitPost sanitizeSvg cfg acl req st = (Ok post, st') ->
  image post = truthy (req_image req) /\
  forall img, image post = Some img ->
    String.prefix "data:image/" img = true /\
    (3 * String.length img + 2) / 4 <= maxProcessedBytes (imageSettings cfg) /\
    (String.prefix "data:image/jpeg" img = true \/
     (String.prefix "data:image/svg+xml" img = true /\ allowSvg (imageSettings cfg) = true /\
      sanitizeSvg img <> None)).
Proof.
  unfold submitPost. destruct (validatePost sanitizeSvg cfg req) eqn:Ev; [discriminate|].
  destruct (checkPostingPermission acl (client req)); [|discriminate].
  destruct (readData st) as [[d st1]|]; [|discriminate].
  simpl. intros H. inversion H; subst; clear H. simpl.
  split; [reflexivity|]. intros img Himg.
  unfold validatePost in Ev. destruct (isBlank (req_text req)); [discriminate|].
  match type of Ev with context [if negb ?b then _ else _] => destruct b end;
    [|discriminate].
  simpl in Ev. rewrite Himg in Ev. unfold validateImage in Ev.
  destruct (String.prefix "data:image/" img) eqn:E1; cbn [negb] in Ev; [|discriminate].
  destruct (maxProcessedBytes (imageSettings cfg) <? (3 * String.length img + 2) / 4) eqn:E2;
    cbn [negb andb] in Ev; [discriminate|].
  apply Nat.ltb_ge in E2. split; [reflexivity|]. split; [exact E2|].
  destruct (String.prefix "data:image/jpeg" img) eqn:E3; [left; reflexivity|]. right.
  destruct (String.prefix "data:image/svg+xml" img) eqn:E4; cbn [negb andb] in Ev; [|discriminate].
  destruct (allowSvg (imageSettings cfg)); cbn [negb andb] in Ev; [|discriminate].
  split; [reflexivity|]. split; [reflexivity|].
  destruct (sanitizeSvg img); [discriminate | discriminate].
Qed.

Lemma post_image_checked_witness :
  submitPost keepSvg sampleCfg (levelAcl 2) jpegReq emptyStorage
  = (Ok jpegPost, snd (submitPost keepSvg sampleCfg (levelAcl 2) jpegReq emptyStorage)) /\
  image jpegPost = truthy (req_image jpegReq) /\
  forall img, image jpegPost = Some img ->
    String.prefix "data:image/" img = true /\
    (3 * String.length img + 2) / 4 <= maxProcessedBytes (imageSettings sampleCfg) /\
    (String.prefix "data:image/jpeg" img = true \/
     (String.prefix "data:image/svg+xml" img = true /\ allowSvg (imageSettings sampleCfg) = true /\
      keepSvg img <> None)).
Proof.
  assert (H : submitPost keepSvg sampleCfg (levelAcl 2) jpegReq emptyStorage
    = (Ok jpegPost, snd (submitPost keepSvg sampleCfg (levelAcl 2) jpegReq emptyStorage)))
    by (vm_compute; reflexivity).
  split; [exact H|].
  exact (post_image_checked keepSvg sampleCfg (levelAcl 2) jpegReq emptyStorage _ _ H).
Defined.

(** X3.  A POST /api/posts handler that runs its three steps without
    another request of the domain in between answers and stores exactly
    what [submitPost] does. *)
Theorem handler_alone_is_submitPost (sanitizeSvg : string -> option string)
  (cfg : BoardConfig) (acl : Acl) (req : PostReq) (st : Storage) :
  runSchedule sanitizeSvg cfg acl [0; 0; 0] [HStart req] st =
  ([HDone (fst (submitPost sanitizeSvg cfg acl req st))],
   snd (submitPost sanitizeSvg cfg acl req st)).
Proof.
  unfold submitPost. simpl.
  destruct (validatePost sanitizeSvg cfg req); simpl; [reflexivity|].
  destruct (checkPostingPermission acl (client req)); simpl; [|reflexivity].
  destruct (readData st) as [[d st1]|]; simpl; reflexivity.
Qed.

(** X4.  Whoever passes the admin check passes the posting check, with
    the same address. *)
Theorem admin_can_post (acl : Acl) (client : option string) (a : string) (nm : option string) :
  checkAdminPermission acl client = Allowed a nm ->
  checkPostingPermission acl client = Allowed a (getUserName acl a).
Proof.
  unfold checkAdminPermission, checkPostingPermission.
  destruct client as [addr|]; [|discriminate].
  destruct (checkAgentAccess acl addr) as [l|]; [|discriminate].
  destruct (3 <=? l) eqn:E; [|discriminate].
  intros H. inversion H; subst. apply Nat.leb_le in E.
  replace (2 <=? l) with true by (symmetry; apply Nat.leb_le; lia). reflexivity.
Qed.

Lemma admin_can_post_witness :
  checkAdminPermission (levelAcl 3) (Some "0xa11ce"%string) = Allowed "0xa11ce" None /\
  checkPostingPermission (levelAcl 3) (Some "0xa11ce"%string)
    = Allowed "0xa11ce" (getUserName (levelAcl 3) "0xa11ce").
Proof.
  split; [reflexivity|].
  exact (admin_can_post (levelAcl 3) (Some "0xa11ce"%string) "0xa11ce" None eq_refl).
Defined.

Lemma loadPosts_all (rs : list (nat * Post)) (qs : list Post) :
  (forall p, In p qs -> readRecord rs (id p) = Some p) -> loadPosts rs (map metaOf qs) = qs.
Proof.
  induction qs as [|q qs IH]; simpl; [reflexivity|]. intros H.
  rewrite (H q (or_introl eq_refl)). f_equal. apply IH. auto.
Qed.

Lemma readData_writeData (st : Storage) (d : Data) :
  stored st d -> 0 < d_nextId d -> readData (writeData st d) = Some (d, writeData st d).
Proof.
  intros Hs Hn. unfold readData, writeData at 1. simpl.
  rewrite (loadPosts_all (records st) (d_posts d) Hs).
  destruct (Nat.eqb (d_nextId d) 0) eqn:E; [apply Nat.eqb_eq in E; lia|].
  destruct d; reflexivity.
Qed.

(** X5.  Writing the index of posts that are all stored, with a positive
    next id, and reading it back gives the same posts in the same order
    and the same next id. *)
Theorem writeData_then_readData (st : Storage) (d : Data) :
  stored st d -> 0 < d_nextId d -> readData (writeData st d) = Some (d, writeData st d).
Proof. exact (readData_writeData st d). Qed.

Lemma writeData_then_readData_witness :
  stored (writePost emptyStorage samplePost1) (mkData [samplePost1] 2) /\ 0 < 2 /\
  readData (writeData (writePost emptyStorage samplePost1) (mkData [samplePost1] 2))
  = Some (mkData [samplePost1] 2, writeData (writePost emptyStorage samplePost1) (mkData [samplePost1] 2)).
Proof.
  assert (H : stored (writePost emptyStorage samplePost1) (mkData [samplePost1] 2)).
  { intros p [<- | []]. reflexivity. }
  split; [exact H|]. split; [lia|].
  exact (writeData_then_readData _ (mkData [samplePost1] 2) H ltac:(simpl; lia)).
Defined.

Lemma loadPosts_read (rs : list (nat * Post)) (ms : list Meta) (p : Post) :
  recordsOk rs -> In p (loadPosts rs ms) -> readRecord rs (id p) = Some p.
Proof.
  intros Hr. induction ms as [|m ms IH]; simpl; [tauto|].
  destruct (readRecord rs (m_id m)) as [q|] eqn:E; [|exact IH].
  intros [<- | Hin]; [|exact (IH Hin)].
  rewrite (Hr _ _ E). exact E.
Qed.

Lemma lastWrite_other (k : nat) (ps : list Post) (x : option Post) :
  Forall (fun q => id q <> k) ps -> fold_left (lastWrite k) ps x = x.
Proof.
  revert x. induction ps as [|q ps IH]; intros x H; simpl; [reflexivity|].
  inversion H; subst. unfold lastWrite at 2.
  destruct (Nat.eqb (id q) k) eqn:E; [apply Nat.eqb_eq in E; contradiction|]. auto.
Qed.

Lemma lastWrite_desc (ps : list Post) (p : Post) (x : option Post) :
  descIds ps -> In p ps -> fold_left (lastWrite (id p)) ps x = Some p.
Proof.
  revert x. induction ps as [|q ps IH]; intros x Hds Hin; simpl; [contradiction|].
  destruct Hds as [Hf Hd]. destruct Hin as [<- | Hin].
  - unfold lastWrite at 2. rewrite Nat.eqb_refl. apply lastWrite_other.
    eapply Forall_impl; [|exact Hf]. simpl. intros r Hr. lia.
  - apply IH; assumption.
Qed.

Lemma readData_stored (st : Storage) (d : Data) (st1 : Storage) :
  storageOk st -> readData st = Some (d, st1) -> stored st1 d.
Proof.
  intros Hs E. pose proof Hs as (Hr & _ & Hl). unfold readData in E.
  destruct (indexFile st) as [[index|]|] eqn:Ef.
  1:{ injection E as <- <-. intros p Hp. exact (loadPosts_read _ _ _ Hr Hp). }
  all: unfold migrateLegacyData in E; destruct (legacy st) as [|l|] eqn:El;
    try discriminate; injection E as <- <-; intros p Hp; simpl in Hp |- *.
  all: try contradiction.
  all: rewrite readRecord_writeRecords; simpl in Hl;
    exact (lastWrite_desc _ _ _ (proj1 Hl) Hp).
Qed.

Lemma descIds_unique (ps : list Post) (p q : Post) :
  descIds ps -> In p ps -> In q ps -> id p = id q -> p = q.
Proof.
  induction ps as [|r ps IH]; simpl; [intros _ []|].
  intros [Hf Hd] Hp Hq E.
  destruct Hp as [<- | Hp]; destruct Hq as [<- | Hq]; auto.
  - pose proof (proj1 (Forall_forall _ _) Hf q Hq) as Hlt. simpl in Hlt. lia.
  - pose proof (proj1 (Forall_forall _ _) Hf p Hp) as Hlt. simpl in Hlt. lia.
Qed.

Lemma sampleStorage1_ok : storageOk sampleStorage1.
Proof.
  apply writeData_ok.
  - apply writePost_ok. split; [|split; exact I]. intros k p H. discriminate.
  - split; [split; [constructor | exact I] | repeat constructor].
Qed.

(** X6.  A comment is pushed at the end of its post's comments: afterwards
    the domain reads back the same posts, in the same order and with the
    same next id, with only that post's comments extended.  The comment's
    id is the request time, so two comments made in the same millisecond
    share it. *)
Theorem comment_appended (acl : Acl) (client : option string) (k : nat) (txt : string)
  (now : nat) (st : Storage) (d : Data) (st1 : Storage) (c : Comment) (st2 : Storage) :
  storageOk st -> readData st = Some (d, st1) -> 0 < d_nextId d ->
  submitComment acl client k txt now st = (Ok c, st2) ->
  c_id c = now /\ c_timestamp c = now /\ c_text c = trim txt /\
  readData st2 = Some (mkData (map (fun p => if Nat.eqb (id p) k then addComment p c else p)
                                 (d_posts d)) (d_nextId d), st2).
Proof.
  intros Hs Hr Hn. unfold submitComment.
  destruct (isBlank txt); [discriminate|].
  destruct (checkPostingPermission acl client) as [a nm|]; [|discriminate].
  rewrite Hr. destruct (find (fun p => Nat.eqb (id p) k) (d_posts d)) as [post|] eqn:Ef;
    [|discriminate].
  intros H. inversion H; subst; clear H.
  split; [reflexivity|]. split; [reflexivity|]. split; [reflexivity|].
  apply find_some in Ef as [Hin Hk]. apply Nat.eqb_eq in Hk.
  destruct (readData_ok st d st1 Hs Hr) as [[Hd _] _].
  pose proof (readData_stored st d st1 Hs Hr) as Hst.
  set (c := mkComment now (trim txt) a nm now).
  assert (Hmap : map (fun p => if Nat.eqb (id p) (id post) then addComment post c else p) (d_posts d)
               = map (fun p => if Nat.eqb (id p) (id post) then addComment p c else p) (d_posts d)).
  { apply map_ext_in. intros p Hp. destruct (Nat.eqb (id p) (id post)) eqn:E; [|reflexivity].
    apply Nat.eqb_eq in E. rewrite (descIds_unique _ p post Hd Hp Hin E). reflexivity. }
  subst k.
  change (readData (writeData (writePost st1 (addComment post c))
            (mkData (map (fun p => if Nat.eqb (id p) (id post) then addComment post c else p)
                       (d_posts d)) (d_nextId d)))
          = Some (mkData (map (fun p => if Nat.eqb (id p) (id post) then addComment p c else p)
                            (d_posts d)) (d_nextId d),
                  writeData (writePost st1 (addComment post c))
                    (mkData (map (fun p => if Nat.eqb (id p) (id post) then addComment post c else p)
                               (d_posts d)) (d_nextId d)))).
  rewrite readData_writeData; [rewrite Hmap; reflexivity | | exact Hn].
  intros q Hq. simpl in Hq. apply in_map_iff in Hq as (p & <- & Hp).
  simpl. rewrite readRecord_writeRecord. simpl.
  destruct (Nat.eqb (id p) (id post)) eqn:E.
  - simpl. rewrite Nat.eqb_refl. reflexivity.
  - rewrite Nat.eqb_sym, E. exact (Hst p Hp).
Qed.

Lemma comment_appended_witness :
  storageOk sampleStorage1 /\ readData sampleStorage1 = Some (mkData [samplePost1] 2, sampleStorage1) /\
  0 < 2 /\
  submitComment (levelAcl 2) (Some "0xa11ce"%string) 1 "nice" 2000 sampleStorage1
  = (Ok (mkComment 2000 "nice" "0xa11ce" None 2000),
     snd (submitComment (levelAcl 2) (Some "0xa11ce"%string) 1 "nice" 2000 sampleStorage1)) /\
  readData (snd (submitComment (levelAcl 2) (Some "0xa11ce"%string) 1 "nice" 2000 sampleStorage1))
  = Some (mkData [addComment samplePost1 (mkComment 2000 "nice" "0xa11ce" None 2000)] 2,
          snd (submitComment (levelAcl 2) (Some "0xa11ce"%string) 1 "nice" 2000 sampleStorage1)).
Proof.
  assert (Hr : readData sampleStorage1 = Some (mkData [samplePost1] 2, sampleStorage1))
    by reflexivity.
  assert (Hc : submitComment (levelAcl 2) (Some "0xa11ce"%string) 1 "nice" 2000 sampleStorage1
    = (Ok (mkComment 2000 "nice" "0xa11ce" None 2000),
       snd (submitComment (levelAcl 2) (Some "0xa11ce"%string) 1 "nice" 2000 sampleStorage1)))
    by (vm_compute; reflexivity).
  split; [exact sampleStorage1_ok|]. split; [exact Hr|]. split; [lia|]. split; [exact Hc|].
  exact (proj2 (proj2 (proj2 (comment_appended (levelAcl 2) (Some "0xa11ce"%string) 1 "nice" 2000
           sampleStorage1 _ _ _ _ sampleStorage1_ok Hr ltac:(simpl; lia) Hc)))).
Defined.

(** X7.  GET /api/posts answers only posts of channels the caller may
    read, and with a [?channel=c] query only the posts of channel [c]
    (for ["general"]: the posts without a channel). *)
Theorem listPosts_visible (cfg : BoardConfig) (acl : Acl) (client : option string)
  (q : option string) (st : Storage) (ps : list Post) (st1 : Storage) :
  listPosts cfg acl client q st = (Ok ps, st1) ->
  exists acc, getAccessibleChannelNames cfg acl client = Some acc /\
    forall p, In p ps -> memStr (postChannel p) acc = true /\
      (forall c, truthy q = Some c -> postChannel p = c).
Proof.
  unfold listPosts. destruct (readData st) as [[d st']|]; [|discriminate].
  destruct (getAccessibleChannelNames cfg acl client) as [acc|]; [|discriminate].
  intros H. exists acc. split; [reflexivity|].
  destruct (truthy q) as [c|] eqn:Eq.
  - destruct (negb (memStr c acc)); [discriminate|].
    destruct (String.eqb c "general") eqn:Eg; inversion H; subst; clear H;
      intros p Hp; apply filter_In in Hp as [Hp H1]; apply filter_In in Hp as [_ H2];
      (split; [exact H2|]); intros c0 Hc0; inversion Hc0; subst c0; clear Hc0.
    + apply String.eqb_eq in Eg. subst c. unfold postChannel.
      destruct (truthy (channel p)) as [c'|]; [apply String.eqb_eq in H1; exact H1 | reflexivity].
    + unfold postChannel. destruct (channel p) as [c'|] eqn:Ech; [|discriminate].
      apply String.eqb_eq in H1. subst c'. rewrite (truthy_some q c Eq). reflexivity.
  - inversion H; subst. intros p Hp. apply filter_In in Hp as [_ H2].
    split; [exact H2 | discriminate].
Qed.

Lemma listPosts_visible_witness :
  listPosts sampleCfg (levelAcl 1) (Some "0xa11ce"%string) (Some "general"%string) sampleStorage1
  = (Ok [samplePost1], sampleStorage1) /\
  exists acc, getAccessibleChannelNames sampleCfg (levelAcl 1) (Some "0xa11ce"%string) = Some acc /\
    forall p, In p [samplePost1] -> memStr (postChannel p) acc = true /\
      (forall c, truthy (Some "general"%string) = Some c -> postChannel p = c).
Proof.
  assert (H : listPosts sampleCfg (levelAcl 1) (Some "0xa11ce"%string) (Some "general"%string)
                sampleStorage1 = (Ok [samplePost1], sampleStorage1)) by (vm_compute; reflexivity).
  split; [exact H|].
  exact (listPosts_visible sampleCfg (levelAcl 1) _ _ sampleStorage1 _ _ H).
Defined.

Lemma addAccessible_names (acl : Acl) (a : string) (level : nat) (chs : list Channel) :
  forall acc, addAccessible acl a level chs (map ch_name acc)
              = option_map (map ch_name) (accessibleChannels acl a level chs acc).
Proof.
  induction chs as [|ch chs IH]; intros acc; simpl; [reflexivity|].
  destruct (truthy (ch_list ch)).
  - destruct (isInACL acl s a) as [b|]; [|reflexivity].
    destruct b; cbn iota; [|apply IH].
    replace (map ch_name acc ++ [ch_name ch]) with (map ch_name (acc ++ [ch]))
      by (rewrite map_app; reflexivity). apply IH.
  - destruct level; cbn iota; [apply IH|].
    replace (map ch_name acc ++ [ch_name ch]) with (map ch_name (acc ++ [ch]))
      by (rewrite map_app; reflexivity). apply IH.
Qed.

(** X8.  GET /api/channels and the channel filter of GET /api/posts agree:
    the channels offered are exactly the ones whose posts can be read,
    ['general'] first, and one answers 500 exactly when the other does. *)
Theorem channels_match_post_filter (cfg : BoardConfig) (acl : Acl) (client : option string) :
  getAccessibleChannelNames cfg acl client
  = match listChannels acl client (channels cfg) with
    | Ok l => Some (map ch_name l)
    | Fail _ => None
    end.
Proof.
  unfold getAccessibleChannelNames, listChannels.
  destruct client as [a|]; [|reflexivity].
  destruct (checkAgentAccess acl a) as [level|]; [|reflexivity].
  destruct (3 <=? level); [reflexivity|].
  change ["general"%string] with (map ch_name [generalPseudo]).
  rewrite addAccessible_names.
  destruct (accessibleChannels acl a level (channels cfg) [generalPseudo]); reflexivity.
Qed.

Lemma findIndex_find {A} (f : A -> bool) (l : list A) (x : A) :
  find f l = Some x -> exists i, findIndex f l = Some i.
Proof.
  induction l as [|y l IH]; simpl; [discriminate|].
  destruct (f y); [eauto|]. intros H. destruct (IH H) as [i Hi]. rewrite Hi. simpl. eauto.
Qed.

Lemma filter_all {A} (f : A -> bool) (l : list A) :
  (forall x, In x l -> f x = true) -> filter f l = l.
Proof.
  induction l as [|x l IH]; simpl; intros H; [reflexivity|].
  rewrite (H x (or_introl eq_refl)). f_equal. auto.
Qed.

Lemma removeNth_findIndex_desc (ps : list Post) (k i : nat) :
  descIds ps -> findIndex (fun p => Nat.eqb (id p) k) ps = Some i ->
  removeNth i ps = filter (fun p => negb (Nat.eqb (id p) k)) ps.
Proof.
  revert i. induction ps as [|q ps IH]; intros i Hd; simpl; [discriminate|].
  destruct Hd as [Hf Hd]. destruct (Nat.eqb (id q) k) eqn:E; simpl.
  - intros H. inversion H; subst. simpl. symmetry. apply filter_all.
    intros x Hx. apply Nat.eqb_eq in E. pose proof (proj1 (Forall_forall _ _) Hf x Hx) as Hlt.
    simpl in Hlt. apply negb_true_iff, Nat.eqb_neq. lia.
  - destruct (findIndex (fun p => Nat.eqb (id p) k) ps) as [j|] eqn:Ej; simpl; [|discriminate].
    intros H. inversion H; subst. simpl. f_equal. exact (IH j Hd eq_refl).
Qed.

Lemma readRecord_deleteRecord (rs : list (nat * Post)) (k j : nat) :
  readRecord (deleteRecord rs k) j = if Nat.eqb j k then None else readRecord rs j.
Proof.
  unfold readRecord, deleteRecord.
  induction rs as [|[k' q] rs IH]; simpl; [destruct (Nat.eqb j k); reflexivity|].
  destruct (Nat.eqb k' k) eqn:E1; simpl.
  - rewrite IH. apply Nat.eqb_eq in E1. subst k'.
    destruct (Nat.eqb j k) eqn:E2; [reflexivity|]. rewrite (Nat.eqb_sym k j), E2. reflexivity.
  - destruct (Nat.eqb k' j) eqn:E2.
    + apply Nat.eqb_eq in E2. subst k'. rewrite E1. reflexivity.
    + exact IH.
Qed.

(** X9.  A post is deleted exactly when it exists and the caller is its
    author, compared case-insensitively, or an admin; authorship alone
    suffices, whatever the ACL answers.  A refused deletion changes
    nothing beyond what [readData] itself wrote. *)
Theorem delete_author_or_admin (acl : Acl) (a : string) (k : nat) (st : Storage)
  (d : Data) (st1 : Storage) :
  readData st = Some (d, st1) ->
  (fst (deletePostHandler acl (Some a) k st) = Ok tt <->
   exists p, find (fun p => Nat.eqb (id p) k) (d_posts d) = Some p /\
     (toLowerCase (author p) = toLowerCase a \/
      isAllowed (checkAdminPermission acl (Some a)) = true)) /\
  (fst (deletePostHandler acl (Some a) k st) <> Ok tt ->
   snd (deletePostHandler acl (Some a) k st) = st1).
Proof.
  intros Hr. unfold deletePostHandler. rewrite Hr.
  destruct (find (fun p => Nat.eqb (id p) k) (d_posts d)) as [p|] eqn:Ef.
  - destruct (String.eqb (toLowerCase (author p)) (toLowerCase a)) eqn:Ea;
      destruct (isAllowed (checkAdminPermission acl (Some a))) eqn:Eb; cbn [orb negb].
    4:{ simpl. split; [split|].
        - intros H. discriminate H.
        - intros (p' & Hp' & [Hc | Hc]); [|discriminate Hc].
          inversion Hp'; subst p'. apply String.eqb_neq in Ea. contradiction.
        - intros _. reflexivity. }
    all: destruct (findIndex (fun p => Nat.eqb (id p) k) (d_posts d)); simpl.
    all: split; [split; [intros _; exists p; split; [reflexivity|] | intros _; reflexivity]
                | intros H; contradiction H; reflexivity].
    all: try (right; reflexivity).
    all: left; apply String.eqb_eq; exact Ea.
  - simpl. split; [split|].
    + intros H. discriminate H.
    + intros (p' & Hp' & _). discriminate Hp'.
    + intros _. reflexivity.
Qed.

(** The domain of [sampleStorage1], with the author's address written in
    upper case. *)
Lemma delete_author_or_admin_witness :
  readData sampleStorage1 = Some (mkData [samplePost1] 2, sampleStorage1) /\
  (fst (deletePostHandler downAcl (Some "0xA11CE"%string) 1 sampleStorage1) = Ok tt <->
   exists p, find (fun p => Nat.eqb (id p) 1) [samplePost1] = Some p /\
     (toLowerCase (author p) = toLowerCase "0xA11CE" \/
      isAllowed (checkAdminPermission downAcl (Some "0xA11CE"%string)) = true)) /\
  (fst (deletePostHandler downAcl (Some "0xA11CE"%string) 1 sampleStorage1) <> Ok tt ->
   snd (deletePostHandler downAcl (Some "0xA11CE"%string) 1 sampleStorage1) = sampleStorage1).
Proof.
  assert (Hr : readData sampleStorage1 = Some (mkData [samplePost1] 2, sampleStorage1))
    by reflexivity.
  split; [exact Hr|].
  exact (delete_author_or_admin downAcl "0xA11CE" 1 sampleStorage1 _ _ Hr).
Defined.

(** X10.  After a post is deleted its record is gone, and the domain reads
    back the other posts in the same order with the same next id, so the
    deleted id is not handed out again. *)
Theorem delete_then_read (acl : Acl) (a : string) (k : nat) (st : Storage) (d : Data)
  (st1 st2 : Storage) :
  storageOk st -> readData st = Some (d, st1) -> 0 < d_nextId d ->
  deletePostHandler acl (Some a) k st = (Ok tt, st2) ->
  readRecord (records st2) k = None /\
  readData st2 = Some (mkData (filter (fun p => negb (Nat.eqb (id p) k)) (d_posts d))
                         (d_nextId d), st2).
Proof.
  intros Hs Hr Hn. unfold deletePostHandler. rewrite Hr.
  destruct (find (fun p => Nat.eqb (id p) k) (d_posts d)) as [p|] eqn:Ef; [|discriminate].
  destruct (negb _); [discriminate|].
  destruct (findIndex_find _ _ _ Ef) as [i Hi]. rewrite Hi.
  intros H. inversion H; subst st2; clear H.
  destruct (readData_ok st d st1 Hs Hr) as [[Hd _] _].
  pose proof (readData_stored st d st1 Hs Hr) as Hst.
  rewrite (removeNth_findIndex_desc _ _ _ Hd Hi).
  split.
  - simpl. rewrite readRecord_deleteRecord, Nat.eqb_refl. reflexivity.
  - apply readData_writeData; [|exact Hn].
    intros q Hq. simpl in Hq. apply filter_In in Hq as [Hq Hk].
    simpl. rewrite readRecord_deleteRecord.
    apply negb_true_iff in Hk. rewrite Hk. exact (Hst q Hq).
Qed.

Lemma delete_then_read_witness :
  storageOk sampleStorage1 /\
  readData sampleStorage1 = Some (mkData [samplePost1] 2, sampleStorage1) /\ 0 < 2 /\
  deletePostHandler (levelAcl 0) (Some "0xa11ce"%string) 1 sampleStorage1
  = (Ok tt, snd (deletePostHandler (levelAcl 0) (Some "0xa11ce"%string) 1 sampleStorage1)) /\
  readRecord (records (snd (deletePostHandler (levelAcl 0) (Some "0xa11ce"%string) 1
                              sampleStorage1))) 1 = None /\
  readData (snd (deletePostHandler (levelAcl 0) (Some "0xa11ce"%string) 1 sampleStorage1))
  = Some (mkData [] 2, snd (deletePostHandler (levelAcl 0) (Some "0xa11ce"%string) 1 sampleStorage1)).
Proof.
  assert (Hr : readData sampleStorage1 = Some (mkData [samplePost1] 2, sampleStorage1))
    by reflexivity.
  assert (Hdel : deletePostHandler (levelAcl 0) (Some "0xa11ce"%string) 1 sampleStorage1
    = (Ok tt, snd (deletePostHandler (levelAcl 0) (Some "0xa11ce"%string) 1 sampleStorage1)))
    by (vm_compute; reflexivity).
  split; [exact sampleStorage1_ok|]. split; [exact Hr|]. split; [lia|]. split; [exact Hdel|].
  exact (delete_then_read (levelAcl 0) "0xa11ce" 1 sampleStorage1 _ _ _ sampleStorage1_ok Hr
           ltac:(simpl; lia) Hdel).
Defined.

Lemma findIndex_none {A} (f : A -> bool) (l : list A) :
  findIndex f l = None <-> existsb f l = false.
Proof.
  induction l as [|x l IH]; simpl; [tauto|].
  destruct (f x); simpl; [split; discriminate|].
  destruct (findIndex f l); simpl; rewrite <- IH; split; congruence.
Qed.

Lemma existsb_false_in {A} (f : A -> bool) (l : list A) (x : A) :
  existsb f l = false -> In x l -> f x = false.
Proof.
  intros H Hx. destruct (f x) eqn:E; [|reflexivity].
  assert (existsb f l = true) by (apply existsb_exists; eauto). congruence.
Qed.

Lemma findIndex_snoc {A} (f : A -> bool) (l : list A) (x : A) :
  findIndex f l = None -> f x = true -> findIndex f (l ++ [x]) = Some (length l).
Proof.
  induction l as [|y l IH]; simpl; intros H Hx; [rewrite Hx; reflexivity|].
  destruct (f y); [discriminate|]. destruct (findIndex f l); [discriminate|].
  rewrite IH; auto.
Qed.

Lemma removeNth_snoc {A} (l : list A) (x : A) : removeNth (length l) (l ++ [x]) = l.
Proof. induction l as [|y l IH]; simpl; [reflexivity|]. rewrite IH. reflexivity. Qed.

Lemma map_removeNth {A B} (g : A -> B) (i : nat) (l : list A) :
  map g (removeNth i l) = removeNth i (map g l).
Proof.
  revert i. induction l as [|x l IH]; intros i; destruct i; simpl; auto. rewrite IH. reflexivity.
Qed.

Lemma In_removeNth {A} (i : nat) (l : list A) (y : A) : In y (removeNth i l) -> In y l.
Proof.
  revert i. induction l as [|x l IH]; intros i; destruct i; simpl; auto.
  intros [H|H]; auto. right. exact (IH i H).
Qed.

Lemma NoDup_removeNth {A} (i : nat) (l : list A) : NoDup l -> NoDup (removeNth i l).
Proof.
  revert i. induction l as [|x l IH]; intros i Hn; destruct i; simpl; auto.
  - inversion Hn; assumption.
  - inversion Hn as [|? ? Hx Hl]; subst. constructor; [|auto].
    intros H. apply Hx. exact (In_removeNth _ _ _ H).
Qed.

Lemma removeNth_key_gone {A} (g : A -> string) (name : string) (l : list A) (i : nat) :
  NoDup (map g l) -> findIndex (fun c => String.eqb (g c) name) l = Some i ->
  existsb (fun c => String.eqb (g c) name) (removeNth i l) = false.
Proof.
  revert i. induction l as [|x l IH]; intros i Hn; simpl; [discriminate|].
  inversion Hn as [|? ? Hx Hl]; subst.
  destruct (String.eqb (g x) name) eqn:E.
  - intros H. inversion H; subst. simpl. apply String.eqb_eq in E. subst name.
    destruct (existsb (fun c => String.eqb (g c) (g x)) l) eqn:Ex; [|reflexivity].
    apply existsb_exists in Ex as (c & Hc & Heq). apply String.eqb_eq in Heq.
    exfalso. apply Hx. rewrite <- Heq. apply in_map. exact Hc.
  - destruct (findIndex (fun c => String.eqb (g c) name) l) as [j|] eqn:Ej; simpl; [|discriminate].
    intros H. inversion H; subst. simpl. rewrite E. exact (IH j Hl eq_refl).
Qed.

Lemma removeNth_firstn_skipn {A} (i : nat) (l : list A) :
  removeNth i l = firstn i l ++ skipn (S i) l.
Proof.
  revert i. induction l as [|x l IH]; intros i; destruct i; simpl; auto. rewrite IH. reflexivity.
Qed.

(** X11.  Deleting a channel just created, by the same admin, restores the
    channel list. *)
Theorem channel_create_delete_roundtrip (acl : Acl) (client : option string) (name : string)
  (listName : option string) (chs : list Channel) (ch : Channel) (chs' : list Channel) :
  createChannel acl client name listName chs = (Ok ch, chs') ->
  deleteChannel acl client name chs' = (Ok tt, chs).
Proof.
  unfold createChannel, deleteChannel.
  destruct (checkAdminPermission acl client) eqn:Ep; [|discriminate]. simpl.
  destruct (negb (validChannelName name)); [discriminate|].
  destruct (String.eqb name "general"); [discriminate|].
  destruct (channelExists chs name) eqn:Ee; [discriminate|].
  intros H. inversion H; subst; clear H.
  unfold channelExists in Ee. apply findIndex_none in Ee.
  rewrite (findIndex_snoc _ _ _ Ee) by (simpl; apply String.eqb_refl).
  rewrite removeNth_snoc. reflexivity.
Qed.

Lemma channel_create_delete_roundtrip_witness :
  createChannel (levelAcl 3) (Some "0xa11ce"%string) "news" None (channels sampleCfg)
  = (Ok (mkChannel "news" None), channels sampleCfg ++ [mkChannel "news" None]) /\
  deleteChannel (levelAcl 3) (Some "0xa11ce"%string) "news"
    (channels sampleCfg ++ [mkChannel "news" None]) = (Ok tt, channels sampleCfg).
Proof.
  assert (H : createChannel (levelAcl 3) (Some "0xa11ce"%string) "news" None (channels sampleCfg)
    = (Ok (mkChannel "news" None), channels sampleCfg ++ [mkChannel "news" None]))
    by (vm_compute; reflexivity).
  split; [exact H|]. exact (channel_create_delete_roundtrip _ _ _ _ _ _ _ H).
Defined.

(** X12.  Channel names stay unique under creation and deletion, and after
    a deletion by an admin no channel of that name is left. *)
Theorem channel_names_unique (acl : Acl) (client : option string) (name : string)
  (listName : option string) (chs : list Channel) :
  NoDup (map ch_name chs) ->
  NoDup (map ch_name (snd (createChannel acl client name listName chs))) /\
  NoDup (map ch_name (snd (deleteChannel acl client name chs))) /\
  channelExists (snd (deleteChannel acl client name chs)) name
    = channelExists chs name && negb (isAllowed (checkAdminPermission acl client)).
Proof.
  intros Hn. split; [|split].
  - unfold createChannel. destruct (checkAdminPermission acl client); simpl; [|exact Hn].
    destruct (validChannelName name); simpl; [|exact Hn].
    destruct (String.eqb name "general"); [exact Hn|].
    destruct (channelExists chs name) eqn:Ee; [exact Hn|]. simpl.
    rewrite map_app. apply NoDup_app; [exact Hn | repeat constructor; simpl; tauto |].
    intros x Hx [Hy | []]. simpl in Hy. subst x.
    apply in_map_iff in Hx as (c & Hc & Hin).
    pose proof (existsb_false_in _ _ _ Ee Hin) as Hf. simpl in Hf.
    rewrite Hc, String.eqb_refl in Hf. discriminate.
  - unfold deleteChannel. destruct (isAllowed (checkAdminPermission acl client)); simpl; [|exact Hn].
    destruct (findIndex (fun c => String.eqb (ch_name c) name) chs); simpl; [|exact Hn].
    rewrite map_removeNth. apply NoDup_removeNth. exact Hn.
  - unfold deleteChannel. destruct (isAllowed (checkAdminPermission acl client)); simpl;
      [|rewrite andb_true_r; reflexivity].
    rewrite andb_false_r.
    destruct (findIndex (fun c => String.eqb (ch_name c) name) chs) as [i|] eqn:Ei; simpl.
    + exact (removeNth_key_gone ch_name name chs i Hn Ei).
    + apply findIndex_none. exact Ei.
Qed.

Lemma channel_names_unique_witness :
  NoDup (map ch_name (channels sampleCfg)) /\
  NoDup (map ch_name (snd (createChannel (levelAcl 3) (Some "0xa11ce"%string) "news" None
                             (channels sampleCfg)))) /\
  NoDup (map ch_name (snd (deleteChannel (levelAcl 3) (Some "0xa11ce"%string) "news"
                             (channels sampleCfg)))) /\
  channelExists (snd (deleteChannel (levelAcl 3) (Some "0xa11ce"%string) "news"
                        (channels sampleCfg))) "news"
    = channelExists (channels sampleCfg) "news"
      && negb (isAllowed (checkAdminPermission (levelAcl 3) (Some "0xa11ce"%string))).
Proof.
  assert (H : NoDup (map ch_name (channels sampleCfg))) by (simpl; repeat constructor; simpl; tauto).
  split; [exact H|]. exact (channel_names_unique (levelAcl 3) _ "news" None _ H).
Defined.

(** X13.  Adding a sidebar link and then deleting the last index, by the
    same admin, gives back the links there were. *)
Theorem sidebar_add_delete_roundtrip (acl : Acl) (client : option string)
  (t u : option string) (f : option (list SidebarLink)) (links : list SidebarLink)
  (f' : option (list SidebarLink)) :
  addSidebarLink acl client t u f = (Ok links, f') ->
  deleteSidebarLink acl client (Some (Z.of_nat (length links - 1))) f'
  = (Ok (loadSidebarLinks f), Some (loadSidebarLinks f)).
Proof.
  unfold addSidebarLink. destruct (isAllowed (checkAdminPermission acl client)) eqn:Ea;
    simpl; [|discriminate].
  destruct (truthy t) as [t'|]; [|discriminate].
  destruct (truthy u) as [u'|]; [|discriminate].
  intros H. inversion H; subst; clear H. unfold deleteSidebarLink. rewrite Ea. cbn [negb].
  set (L := loadSidebarLinks f).
  repeat match goal with
         | |- context [loadSidebarLinks (Some ?x)] => change (loadSidebarLinks (Some x)) with x
         end.
  rewrite length_app. cbn [length].
  replace (length L + 1 - 1) with (length L) by lia.
  destruct (Z.of_nat (length L) <? 0)%Z eqn:E1; [apply Z.ltb_lt in E1; lia|].
  destruct (Z.of_nat (length L + 1) <=? Z.of_nat (length L))%Z eqn:E2;
    [apply Z.leb_le in E2; lia|].
  cbn [orb]. rewrite Nat2Z.id, removeNth_snoc. reflexivity.
Qed.

Lemma sidebar_add_delete_roundtrip_witness :
  addSidebarLink (levelAcl 3) (Some "0xa11ce"%string) (Some "Wiki"%string) (Some "https://wiki"%string)
    (Some sampleSidebarLinks)
  = (Ok (sampleSidebarLinks ++ [mkSidebarLink "Wiki" "https://wiki"]),
     Some (sampleSidebarLinks ++ [mkSidebarLink "Wiki" "https://wiki"])) /\
  deleteSidebarLink (levelAcl 3) (Some "0xa11ce"%string)
    (Some (Z.of_nat (length (sampleSidebarLinks ++ [mkSidebarLink "Wiki" "https://wiki"]) - 1)))
    (Some (sampleSidebarLinks ++ [mkSidebarLink "Wiki" "https://wiki"]))
  = (Ok (loadSidebarLinks (Some sampleSidebarLinks)),
     Some (loadSidebarLinks (Some sampleSidebarLinks))).
Proof.
  assert (H : addSidebarLink (levelAcl 3) (Some "0xa11ce"%string) (Some "Wiki"%string)
                (Some "https://wiki"%string) (Some sampleSidebarLinks)
    = (Ok (sampleSidebarLinks ++ [mkSidebarLink "Wiki" "https://wiki"]),
       Some (sampleSidebarLinks ++ [mkSidebarLink "Wiki" "https://wiki"])))
    by (vm_compute; reflexivity).
  split; [exact H|]. exact (sidebar_add_delete_roundtrip _ _ _ _ _ _ _ H).
Defined.

(** X14.  For an admin, DELETE /links/:index removes exactly one link, at
    the index given, or at index 0 when the index is not a number
    ([parseInt] gives [NaN]); an index out of range answers 404 and leaves
    the file as it was. *)
Theorem sidebar_delete_effect (acl : Acl) (client : option string) (idx : option Z)
  (f : option (list SidebarLink)) :
  isAllowed (checkAdminPermission acl client) = true ->
  match deleteSidebarLink acl client idx f with
  | (Ok l', f') =>
    f' = Some l' /\ exists i,
      (idx = None /\ i = 0 \/ idx = Some (Z.of_nat i) /\ i < length (loadSidebarLinks f)) /\
      l' = firstn i (loadSidebarLinks f) ++ skipn (S i) (loadSidebarLinks f)
  | (Fail e, f') =>
    f' = f /\ e = NotFoundError /\ exists z, idx = Some z /\
      (z < 0 \/ Z.of_nat (length (loadSidebarLinks f)) <= z)%Z
  end.
Proof.
  intros Ha. unfold deleteSidebarLink. rewrite Ha. cbn [negb].
  destruct idx as [z|].
  - destruct ((z <? 0)%Z || (Z.of_nat (length (loadSidebarLinks f)) <=? z)%Z) eqn:E.
    + split; [reflexivity|]. split; [reflexivity|]. exists z. split; [reflexivity|].
      apply orb_true_iff in E as [E|E]; [left; apply Z.ltb_lt; exact E | right; apply Z.leb_le; exact E].
    + apply orb_false_iff in E as [E1 E2]. apply Z.ltb_ge in E1. apply Z.leb_gt in E2.
      split; [reflexivity|]. exists (Z.to_nat z). split.
      * right. split; [f_equal; lia | lia].
      * apply removeNth_firstn_skipn.
  - split; [reflexivity|]. exists 0. split; [left; auto | apply removeNth_firstn_skipn].
Qed.

Lemma sidebar_delete_effect_witness :
  isAllowed (checkAdminPermission (levelAcl 3) (Some "0xa11ce"%string)) = true /\
  deleteSidebarLink (levelAcl 3) (Some "0xa11ce"%string) None (Some sampleSidebarLinks)
  = (Ok [mkSidebarLink "Chat" "https://chat"], Some [mkSidebarLink "Chat" "https://chat"]) /\
  match deleteSidebarLink (levelAcl 3) (Some "0xa11ce"%string) None (Some sampleSidebarLinks) with
  | (Ok l', f') =>
    f' = Some l' /\ exists i,
      (@None Z = None /\ i = 0 \/ None = Some (Z.of_nat i) /\
       i < length (loadSidebarLinks (Some sampleSidebarLinks))) /\
      l' = firstn i (loadSidebarLinks (Some sampleSidebarLinks))
           ++ skipn (S i) (loadSidebarLinks (Some sampleSidebarLinks))
  | (Fail e, f') =>
    f' = Some sampleSidebarLinks /\ e = NotFoundError /\ exists z, None = Some z /\
      (z < 0 \/ Z.of_nat (length (loadSidebarLinks (Some sampleSidebarLinks))) <= z)%Z
  end.
Proof.
  assert (H : isAllowed (checkAdminPermission (levelAcl 3) (Some "0xa11ce"%string)) = true)
    by reflexivity.
  split; [exact H|]. split; [vm_compute; reflexivity|].
  exact (sidebar_delete_effect (levelAcl 3) _ None (Some sampleSidebarLinks) H).
Defined.

Lemma findIndex_some {A} (f : A -> bool) (l : list A) (i : nat) :
  findIndex f l = Some i -> exists y, nth_error l i = Some y /\ f y = true.
Proof.
  revert i. induction l as [|x l IH]; intros i; simpl; [discriminate|].
  destruct (f x) eqn:E; [intros H; inversion H; subst; exists x; split; [reflexivity | exact E]|].
  destruct (findIndex f l) as [j|] eqn:Ej; simpl; [|intros H; discriminate H].
  intros H. inversion H; subst. exact (IH j eq_refl).
Qed.

Lemma map_setNth {A B} (g : A -> B) (l : list A) (i : nat) (x : A) :
  map g (setNth l i x) = setNth (map g l) i (g x).
Proof.
  revert i. induction l as [|y l IH]; intros i; destruct i; simpl; auto. rewrite IH. reflexivity.
Qed.

Lemma setNth_same {A} (l : list A) (i : nat) (y : A) :
  nth_error l i = Some y -> setNth l i y = l.
Proof.
  revert i. induction l as [|z l IH]; intros i; destruct i; simpl; try discriminate.
  - intros H. inversion H; subst. reflexivity.
  - intros H. rewrite (IH i H). reflexivity.
Qed.

Lemma In_setNth {A} (l : list A) (i : nat) (x : A) :
  i < length l -> In x (setNth l i x).
Proof.
  revert i. induction l as [|z l IH]; intros i; destruct i; simpl; try lia; auto.
  intros H. right. apply IH. lia.
Qed.

Lemma In_setNth_other {A} (l : list A) (i : nat) (x y : A) :
  In y l -> nth_error l i <> Some y -> In y (setNth l i x).
Proof.
  revert i. induction l as [|z l IH]; intros i; destruct i; simpl; auto.
  - intros [<- | H] Hn; [contradiction Hn; reflexivity | right; exact H].
  - intros [<- | H] Hn; [left; reflexivity | right; exact (IH i H Hn)].
Qed.

Lemma filter_setNth {A} (f : A -> bool) (l : list A) (i : nat) (x y : A) :
  nth_error l i = Some y -> f y = false -> f x = false -> filter f (setNth l i x) = filter f l.
Proof.
  revert i. induction l as [|z l IH]; intros i; destruct i; simpl; try discriminate.
  - intros H Hy Hx. inversion H; subst. rewrite Hx, Hy. reflexivity.
  - intros H Hy Hx. rewrite (IH i H Hy Hx). reflexivity.
Qed.

Lemma filter_length_lt {A} (f : A -> bool) (l : list A) (x : A) :
  In x l -> f x = false -> length (filter f l) < length l.
Proof.
  induction l as [|y l IH]; simpl; [contradiction|].
  intros [<- | H] Hx.
  - rewrite Hx. pose proof (filter_length_le f l). lia.
  - destruct (f y); simpl; [specialize (IH H Hx); lia|]. pose proof (filter_length_le f l). lia.
Qed.

(** X15.  POST /api/links keeps slugs unique: an existing slug's entry is
    replaced in place, a new one is appended, and every entry with another
    slug stays. *)
Theorem upsert_keeps_slugs_unique (acl : Acl) (client : option string)
  (s u t : option string) (links : list Link) (link : Link) (links' : list Link) :
  NoDup (map lk_slug links) -> upsertLink acl client s u t links = (Ok link, links') ->
  NoDup (map lk_slug links') /\ In link links' /\ truthy s = Some (lk_slug link) /\
  (forall l, In l links -> lk_slug l <> lk_slug link -> In l links').
Proof.
  intros Hn. unfold upsertLink.
  destruct (truthy s) as [s'|] eqn:Es; [|discriminate].
  destruct (truthy u) as [u'|]; [|discriminate].
  destruct (isAllowed (checkAdminPermission acl client)); simpl; [|discriminate].
  destruct (findIndex (fun l => String.eqb (lk_slug l) s') links) as [i|] eqn:Ei;
    intros H; inversion H; subst; clear H; simpl.
  - destruct (findIndex_some _ _ _ Ei) as (y & Hy & Hys). apply String.eqb_eq in Hys.
    split; [|split; [|split; [reflexivity|]]].
    + rewrite map_setNth. simpl.
      rewrite (setNth_same (map lk_slug links) i s'); [exact Hn|].
      rewrite nth_error_map, Hy. simpl. rewrite Hys. reflexivity.
    + apply In_setNth. apply nth_error_Some. rewrite Hy. discriminate.
    + intros l Hl Hs. apply In_setNth_other; [exact Hl|]. rewrite Hy. intros E.
      inversion E; subst. contradiction.
  - split; [|split; [|split; [reflexivity|]]].
    + rewrite map_app. apply NoDup_app; [exact Hn | repeat constructor; simpl; tauto |].
      intros x Hx [Hy | []]. simpl in Hy. subst x.
      apply in_map_iff in Hx as (c & Hc & Hin). apply findIndex_none in Ei.
      pose proof (existsb_false_in _ _ _ Ei Hin) as Hf. simpl in Hf.
      rewrite Hc, String.eqb_refl in Hf. discriminate.
    + apply in_or_app. right. left. reflexivity.
    + intros l Hl _. apply in_or_app. left. exact Hl.
Qed.

Lemma upsert_keeps_slugs_unique_witness :
  NoDup (map lk_slug sampleLinks) /\
  upsertLink (levelAcl 3) (Some "0xa11ce"%string) (Some "docs"%string) (Some "https://new"%string)
    None sampleLinks
  = (Ok (mkLink "docs" "https://new" "docs"), [mkLink "docs" "https://new" "docs"]) /\
  NoDup (map lk_slug [mkLink "docs" "https://new" "docs"]) /\
  In (mkLink "docs" "https://new" "docs") [mkLink "docs" "https://new" "docs"] /\
  truthy (Some "docs"%string) = Some (lk_slug (mkLink "docs" "https://new" "docs")) /\
  (forall l, In l sampleLinks -> lk_slug l <> lk_slug (mkLink "docs" "https://new" "docs") ->
     In l [mkLink "docs" "https://new" "docs"]).
Proof.
  assert (Hn : NoDup (map lk_slug sampleLinks)) by (simpl; repeat constructor; simpl; tauto).
  assert (H : upsertLink (levelAcl 3) (Some "0xa11ce"%string) (Some "docs"%string)
                (Some "https://new"%string) None sampleLinks
    = (Ok (mkLink "docs" "https://new" "docs"), [mkLink "docs" "https://new" "docs"]))
    by (vm_compute; reflexivity).
  split; [exact Hn|]. split; [exact H|].
  exact (upsert_keeps_slugs_unique _ _ _ _ _ _ _ _ Hn H).
Defined.

(** X16.  Saving a link and then deleting its slug, by the same admin,
    leaves the links there were minus every entry with that slug. *)
Theorem upsert_then_delete (acl : Acl) (client : option string) (s u t : option string)
  (links : list Link) (link : Link) (links' : list Link) :
  upsertLink acl client s u t links = (Ok link, links') ->
  deleteLink acl client (lk_slug link) links'
  = (Ok tt, filter (fun l => negb (String.eqb (lk_slug l) (lk_slug link))) links).
Proof.
  unfold upsertLink.
  destruct (truthy s) as [s'|] eqn:Es; [|discriminate].
  destruct (truthy u) as [u'|]; [|discriminate].
  destruct (isAllowed (checkAdminPermission acl client)) eqn:Ea; simpl; [|discriminate].
  set (link0 := mkLink s' u' (match truthy t with Some t' => t' | None => s' end)).
  assert (Hl : negb (String.eqb (lk_slug link0) s') = false)
    by (simpl; rewrite String.eqb_refl; reflexivity).
  destruct (findIndex (fun l => String.eqb (lk_slug l) s') links) as [i|] eqn:Ei;
    intros H; inversion H; subst; clear H; unfold deleteLink; rewrite Ea; cbn [negb];
    change (lk_slug link0) with s'.
  - destruct (findIndex_some _ _ _ Ei) as (y & Hy & Hys).
    assert (Hin : In link0 (setNth links i link0))
      by (apply In_setNth; apply nth_error_Some; rewrite Hy; discriminate).
    pose proof (filter_length_lt (fun l => negb (String.eqb (lk_slug l) s')) _ _ Hin Hl) as Hlt.
    destruct (Nat.eqb _ _) eqn:El; [apply Nat.eqb_eq in El; lia|].
    rewrite (filter_setNth _ _ _ _ _ Hy); [reflexivity | | exact Hl].
    rewrite Hys. reflexivity.
  - assert (Hin : In link0 (links ++ [link0])) by (apply in_or_app; right; left; reflexivity).
    pose proof (filter_length_lt (fun l => negb (String.eqb (lk_slug l) s')) _ _ Hin Hl) as Hlt.
    destruct (Nat.eqb _ _) eqn:El; [apply Nat.eqb_eq in El; lia|].
    rewrite filter_app. simpl. rewrite String.eqb_refl. simpl. rewrite app_nil_r. reflexivity.
Qed.

Lemma upsert_then_delete_witness :
  upsertLink (levelAcl 3) (Some "0xa11ce"%string) (Some "news"%string) (Some "https://news"%string)
    (Some "News"%string) sampleLinks
  = (Ok (mkLink "news" "https://news" "News"), sampleLinks ++ [mkLink "news" "https://news" "News"]) /\
  deleteLink (levelAcl 3) (Some "0xa11ce"%string) (lk_slug (mkLink "news" "https://news" "News"))
    (sampleLinks ++ [mkLink "news" "https://news" "News"])
  = (Ok tt, filter (fun l => negb (String.eqb (lk_slug l)
                                   (lk_slug (mkLink "news" "https://news" "News")))) sampleLinks).
Proof.
  assert (H : upsertLink (levelAcl 3) (Some "0xa11ce"%string) (Some "news"%string)
                (Some "https://news"%string) (Some "News"%string) sampleLinks
    = (Ok (mkLink "news" "https://news" "News"), sampleLinks ++ [mkLink "news" "https://news" "News"]))
    by (vm_compute; reflexivity).
  split; [exact H|]. exact (upsert_then_delete _ _ _ _ _ _ _ _ H).
Defined.

Lemma applyUpdates_spec (updates : list (string * JVal)) :
  forall settings, applyUpdates updates settings
  = if forallb (fun kv => negb (settingError (fst kv) (snd kv))) updates
    then Some (fold_left (fun s kv => setKey s (fst kv) (snd kv)) updates settings)
    else None.
Proof.
  induction updates as [|[k v] updates IH]; intros settings; simpl; [reflexivity|].
  destruct (settingError k v); simpl; [reflexivity | apply IH].
Qed.

(** X17.  PATCH /api/settings/image is all or nothing: the stored settings
    change only when the caller is an admin and every entry passes its
    check, and then every entry is applied in order; one bad entry leaves
    the stored settings as they were, including the entries before it. *)
Theorem settings_patch_all_or_nothing (acl : Acl) (client : option string)
  (updates stored : list (string * JVal)) :
  snd (patchImageSettings acl client updates stored)
  = if isAllowed (checkAdminPermission acl client)
       && forallb (fun kv => negb (settingError (fst kv) (snd kv))) updates
    then fold_left (fun s kv => setKey s (fst kv) (snd kv)) updates stored
    else stored.
Proof.
  unfold patchImageSettings.
  destruct (isAllowed (checkAdminPermission acl client)); simpl; [|reflexivity].
  rewrite applyUpdates_spec.
  destruct (forallb _ updates); reflexivity.
Qed.





(** X19.  The view mode read by GET /api/config/view-mode stays ['board']
    or ['chat'] through any PUT. *)
Theorem view_mode_stays_valid (acl : Acl) (client : option string) (viewMode : option string)
  (stored : option string) :
  viewModeOk stored -> viewModeOk (snd (putViewMode acl client viewMode stored)).
Proof.
  intros Hs. unfold putViewMode.
  destruct (isAllowed (checkAdminPermission acl client)); simpl; [|exact Hs].
  destruct (truthy viewMode) as [m|] eqn:Ev; simpl; [|exact Hs].
  destruct (String.eqb m "board") eqn:Eb; simpl.
  - left. unfold getViewMode. rewrite (truthy_some _ _ Ev). apply String.eqb_eq. exact Eb.
  - destruct (String.eqb m "chat") eqn:Ec; simpl; [|exact Hs].
    right. unfold getViewMode. rewrite (truthy_some _ _ Ev). apply String.eqb_eq. exact Ec.
Qed.

Lemma view_mode_stays_valid_witness :
  viewModeOk None /\
  viewModeOk (snd (putViewMode (levelAcl 3) (Some "0xa11ce"%string) (Some "chat"%string) None)).
Proof.
  assert (H : viewModeOk None) by (left; reflexivity).
  split; [exact H|]. exact (view_mode_stays_valid _ _ _ None H).
Defined.

(** X20.  [cleanup] leaves every domain with an empty chain, whatever the
    content store answers: a domain with pending links gets the root
    H(lastHash), a domain without keeps its lastHash. *)
Theorem cleanup_flushes_all (upload : Upload) (now : nat)
  (domainStates : list (string * DomainState)) :
  cleanup upload now domainStates
  = map (fun ds => (fst ds, mkDomainState []
                              (match postChain (snd ds) with
                               | [] => lastHash (snd ds)
                               | _ => Rehash (lastHash (snd ds))
                               end))) domainStates.
Proof.
  unfold cleanup. apply map_ext. intros [d [c h]]. simpl.
  destruct c as [|cp c]; simpl; [reflexivity|].
  rewrite flushBatch_nonempty by discriminate. reflexivity.
Qed.
